(** * gqs: a durable job queue with at-least-once delivery

    A shallow embedding of the Go packages [job], [gqs] (backoff, lifecycle
    guard, worker) and [gqs/sql] (relational Pusher, Puller, Cleaner), with
    the properties of the job life cycle proved over it.

    Conventions.
    - [time.Time] and [time.Duration] are integers (nanoseconds); the wall
      clock reading [time.Now()] of a call is an input of that call.
    - The [jobs] table is a finite map from the primary key [id] to the
      remaining columns; SQL statements are functions on that map.
    - A Go pointer argument that a method writes through ([*job.Job]) is
      passed in and handed back next to the result. *)

From Stdlib Require Import ZArith String Lia QArith Qround.
From stdpp Require Import base option list sorting gmap strings.

Local Open Scope string_scope.
Local Open Scope list_scope.
Local Open Scope Z_scope.

(** ** Packages [message] and [job] *)

Module message.

Definition uuid := Z.

(** [message.Message]: identifier, metadata map and opaque payload.
    Metadata values are kept as strings; a row of the store holds the
    metadata as the store hands it back, and how the store encodes other
    values in its [jsonb] column is not modelled. *)
Record Message := {
  Id : uuid;
  Metadata : gmap string string;
  Payload : list Byte.byte
}.

End message.

Module job.

(** [type Status uint8] with its five named constants. *)
Definition Status := Z.

Definition Unknown : Status := 0.
Definition Pending : Status := 1.
Definition Processing : Status := 2.
Definition Done : Status := 3.
Definition Dead : Status := 4.

Definition statusToString (status : Status) : string :=
  if status =? Pending then "Pending"
  else if status =? Processing then "Processing"
  else if status =? Done then "Done"
  else if status =? Dead then "Dead"
  else "Unknown".

(** The error of [fmt.Errorf("unknown status: %s", status)] is kept as its
    message. *)
Definition statusFromString (status : string) : Status + string :=
  if String.eqb status "Pending" then inl Pending
  else if String.eqb status "Processing" then inl Processing
  else if String.eqb status "Done" then inl Done
  else if String.eqb status "Dead" then inl Dead
  else if String.eqb status "Unknown" then inl Unknown
  else inr (String.append "unknown status: " status).

Definition ParseStatus (s : string) : Status + string := statusFromString s.

(** [Status.String]. *)
Definition String (s : Status) : string := statusToString s.

(** [job.Job]: the embedded message and the delivery state. [Attempts] is a
    [uint32], [LockedUntil] a nullable pointer. The record has a name space
    of its own so that the field [Status] keeps its name. *)
Module Job.
Record t := {
  Message : message.Message;
  CreatedAt : Z;
  UpdatedAt : Z;
  Status : Status;
  Attempts : Z;
  LockedUntil : option Z;
  NextRunAt : Z
}.

(** Assignments to single fields through the pointer ([jb.Status = ...]). *)
Definition setUpdatedAt (v : Z) (jb : t) : t :=
  {| Message := Message jb; CreatedAt := CreatedAt jb; UpdatedAt := v;
     Status := Status jb; Attempts := Attempts jb;
     LockedUntil := LockedUntil jb; NextRunAt := NextRunAt jb |}.

Definition setStatus (v : job.Status) (jb : t) : t :=
  {| Message := Message jb; CreatedAt := CreatedAt jb;
     UpdatedAt := UpdatedAt jb; Status := v; Attempts := Attempts jb;
     LockedUntil := LockedUntil jb; NextRunAt := NextRunAt jb |}.

Definition setLockedUntil (v : option Z) (jb : t) : t :=
  {| Message := Message jb; CreatedAt := CreatedAt jb;
     UpdatedAt := UpdatedAt jb; Status := Status jb; Attempts := Attempts jb;
     LockedUntil := v; NextRunAt := NextRunAt jb |}.

Definition setNextRunAt (v : Z) (jb : t) : t :=
  {| Message := Message jb; CreatedAt := CreatedAt jb;
     UpdatedAt := UpdatedAt jb; Status := Status jb; Attempts := Attempts jb;
     LockedUntil := LockedUntil jb; NextRunAt := v |}.
End Job.

(** [Status.MarshalText]: the canonical name, as bytes; it never fails. *)
Definition MarshalText (s : Status) : list Byte.byte * option string :=
  (list_byte_of_string (statusToString s), None).

(** [Status.UnmarshalText], on a pointer receiver: the status [s] behind
    it is written on success only. *)
Definition UnmarshalText (s : Status) (text : list Byte.byte)
  : Status * option string :=
  match statusFromString (string_of_list_byte text) with
  | inr err => (s, Some err)
  | inl status => (status, None)
  end.

End job.

(** ** Package [gqs]: errors, backoff, lifecycle guard, worker *)

Module gqs.

(** Go [error] values, told apart by their text: the value of an
    [errors.New(text)] (a sentinel of a package, a driver's or a handler's
    own error), and an error that wraps another one with [%w]. *)
Inductive error :=
| New (text : string)
| Wrap (text : string) (inner : error).

#[global] Instance error_eq_dec : EqDecision error.
Proof. solve_decision. Defined.

Definition ErrJobLost : error := New "job lost".
Definition ErrLockLost : error := New "lock lost".
Definition ErrCompleteFailed : error := New "complete failed".
Definition ErrBadStatus : error := New "bad job status".
Definition ErrDoubleStarted : error := New "worker double start".
Definition ErrDoubleStopped : error := New "worker double stop".
Definition ErrStopTimeout : error := New "worker stop timeout".

(** Modelled from the spec: the sentinel [Kill] error, by which a handler
    asks for its job to be made [Dead]. The worker test and the README
    name it [gqs.ErrKill]; its declaration, and so its text, is not among
    the sources. *)
Definition ErrKill : error := New "kill".

(** [errors.Is]: the error itself or one it wraps. *)
Fixpoint errorsIs (err target : error) : bool :=
  if bool_decide (err = target) then true
  else match err with
       | Wrap _ inner => errorsIs inner target
       | _ => false
       end.

(** *** Backoff *)

(** The [float64] operations [next] uses. They are kept abstract: the
    results below hold for IEEE binary64 and for any other arithmetic. *)
Class Float64 := {
  float64 : Type;
  (** conversion of an integer, [float64(n)] *)
  of_int : Z -> float64;
  fmul : float64 -> float64 -> float64;
  fadd : float64 -> float64 -> float64;
  fsub : float64 -> float64 -> float64;
  (** the comparison [x > y] *)
  fgt : float64 -> float64 -> bool;
  (** [math.Pow] *)
  Pow : float64 -> float64 -> float64;
  (** conversion to an integer, [time.Duration(x)] *)
  to_int64 : float64 -> Z
}.

Record BackoffConfig `{Float64} := {
  MaxRetries : Z;
  InitialInterval : Z;
  MaxInterval : Z;
  Multiplier : float64;
  RandomizationFactor : float64
}.

(** [uint32] subtraction wraps around. *)
Definition sub32 (a b : Z) : Z := (a - b) mod 2 ^ 32.

(** [backoffCounter.next]; [rnd] is the value drawn by [rand.Float64()]. *)
Definition next `{Float64} (bc : BackoffConfig) (attempt : Z) (rnd : float64)
  : Z * bool :=
  if (0 <? MaxRetries bc) && (MaxRetries bc <? attempt) then (0, false)
  else
    let exp := fmul (of_int (InitialInterval bc))
                    (Pow (Multiplier bc) (of_int (sub32 attempt 1))) in
    let exp := if fgt exp (of_int (MaxInterval bc))
               then of_int (MaxInterval bc) else exp in
    let exp := if fgt (RandomizationFactor bc) (of_int 0)
               then
                 let delta := fmul (RandomizationFactor bc) exp in
                 let minExp := fsub exp delta in
                 let maxExp := fadd exp delta in
                 fadd minExp (fmul rnd (fsub maxExp minExp))
               else exp in
    (to_int64 exp, true).

(** *** Lifecycle guard *)

Definition stopped : Z := 0.
Definition started : Z := 1.

(** [lcBase]: one atomic [int32]. *)
Record lcBase := { state : Z }.

(** [atomic.Int32.CompareAndSwap]: one indivisible step on the cell. *)
Definition CompareAndSwap (old new : Z) (lb : lcBase) : lcBase * bool :=
  if state lb =? old then ({| state := new |}, true) else (lb, false).

Definition tryStart (lb : lcBase) : lcBase * option error :=
  let (lb', swapped) := CompareAndSwap stopped started lb in
  if negb swapped then (lb', Some ErrDoubleStarted) else (lb', None).

(** [tryStop timeout df]: [df] asks the background tasks [T] to stop;
    [inTime] tells whether they are done before the timer fires. *)
Definition tryStop {T : Type} (df : T -> T) (inTime : bool)
    (lb : lcBase) (tasks : T) : lcBase * T * option error :=
  let (lb', swapped) := CompareAndSwap started stopped lb in
  if negb swapped then (lb', tasks, Some ErrDoubleStopped)
  else
    let tasks' := df tasks in
    if inTime then (lb', tasks', None) else (lb', tasks', Some ErrStopTimeout).

(** *** The [Puller] contract *)

(** What a storage call observes from outside: the wall clock, and whether
    the round trip to the store fails ([ctx] cancelled, driver error)
    before the statement is executed. *)
Record Env := { now : Z; fail : option error }.

(** [gqs.Puller], over a store of type [S]. A transition hands back the
    store, the caller's job (written through the pointer) and the error. *)
Class Puller (S : Type) := {
  Pull : Env -> Z -> Z -> S -> S * (list job.Job.t + error);
  ExtendLock : Env -> job.Job.t -> Z -> S -> S * job.Job.t * option error;
  Complete : Env -> job.Job.t -> S -> S * job.Job.t * option error;
  Return : Env -> job.Job.t -> Z -> S -> S * job.Job.t * option error;
  Kill : Env -> job.Job.t -> S -> S * job.Job.t * option error
}.

(** *** Worker *)

(** A background task ([internal.TimerTask], [internal.WorkerPool]):
    whether its goroutines run, and how many times it was launched. *)
Record task := { running : bool; launches : nat }.

Definition taskStart (t : task) : task :=
  {| running := true; launches := S (launches t) |}.

Definition taskStop (t : task) : task :=
  {| running := false; launches := launches t |}.

Record WorkerConfig `{Float64} := {
  Concurrency : Z;
  Queue : Z;
  BatchSize : Z;
  PullInterval : Z;
  LockTimeout : Z;
  Backoff : BackoffConfig
}.

(** [Worker]. The puller is the [Puller] instance in scope and the handler
    is met through its outcome only (see [event]). *)
Record Worker `{Float64} := {
  lc : lcBase;
  pullTask : task;
  pool : task;
  batchSize : Z;
  interval : Z;
  lock : Z;
  halfLock : Z;
  backoff : BackoffConfig
}.

Definition NewWorker `{Float64} (config : WorkerConfig) : Worker :=
  {| lc := {| state := 0 |};
     pullTask := {| running := false; launches := 0 |};
     pool := {| running := false; launches := 0 |};
     batchSize := BatchSize config;
     interval := PullInterval config;
     lock := LockTimeout config;
     halfLock := Z.quot (LockTimeout config) 2;
     backoff := Backoff config |}.

Definition withLifecycle `{Float64} (w : Worker) (lb : lcBase)
    (pt pl : task) : Worker :=
  {| lc := lb; pullTask := pt; pool := pl;
     batchSize := batchSize w; interval := interval w; lock := lock w;
     halfLock := halfLock w; backoff := backoff w |}.

Definition Start `{Float64} (w : Worker) : Worker * option error :=
  match tryStart (lc w) with
  | (lb, Some err) => (withLifecycle w lb (pullTask w) (pool w), Some err)
  | (lb, None) =>
      (withLifecycle w lb (taskStart (pullTask w)) (taskStart (pool w)), None)
  end.

Definition doStop (tasks : task * task) : task * task :=
  (taskStop tasks.1, taskStop tasks.2).

Definition Stop `{Float64} (inTime : bool) (w : Worker)
  : Worker * option error :=
  let '(lb, (pt, pl), err) :=
    tryStop doStop inTime (lc w) (pullTask w, pool w) in
  (withLifecycle w lb pt pl, err).

(** A caller's use of the lifecycle API, and a sequence of such calls in
    the order in which their compare-and-swap steps take effect. *)
Inductive lcCall :=
| CallStart
| CallStop (inTime : bool).

Fixpoint runCalls `{Float64} (calls : list lcCall) (w : Worker)
  : Worker * list (option error) :=
  match calls with
  | [] => (w, [])
  | c :: rest =>
      let (w1, r) := match c with
                     | CallStart => Start w
                     | CallStop inTime => Stop inTime w
                     end in
      let (w2, rs) := runCalls rest w1 in
      (w2, r :: rs)
  end.

(** The calls of a run that took effect: a [Start] that returned nil, and
    a [Stop] that got past the guard (it returned nil or [ErrStopTimeout]). *)
Fixpoint successfulStarts (calls : list lcCall)
    (results : list (option error)) : nat :=
  match calls, results with
  | CallStart :: cs, None :: rs => S (successfulStarts cs rs)
  | _ :: cs, _ :: rs => successfulStarts cs rs
  | _, _ => 0%nat
  end.

Fixpoint passedStops (calls : list lcCall)
    (results : list (option error)) : nat :=
  match calls, results with
  | CallStop _ :: cs, r :: rs =>
      ((if bool_decide (r = Some ErrDoubleStopped) then 0 else 1)
       + passedStops cs rs)%nat
  | _ :: cs, _ :: rs => passedStops cs rs
  | _, _ => 0%nat
  end.

(** 1 for a worker in the started state, 0 otherwise. *)
Definition isStarted `{Float64} (w : Worker) : nat :=
  if state (lc w) =? started then 1%nat else 0%nat.

(** What the [select] loop of [handleOrExtend] receives: the lease timer
    fires (the renewal then runs in [env]), or the handler's result arrives
    on [errCh]. *)
Inductive event :=
| Tick (env : Env)
| Finished (res : option error).

(** What handling one job does to the outside, in order. *)
Inductive effect :=
| CallExtendLock (id : message.uuid) (lock : Z)
| CallComplete (id : message.uuid)
| CallReturn (id : message.uuid) (backoff : Z)
| CallKill (id : message.uuid)
| Cancel
| Log (msg : string).

Definition jobId (jb : job.Job.t) : message.uuid :=
  message.Id (job.Job.Message jb).

(** [Worker.handleOrExtend]. [None]: the events run out while the loop is
    still blocked in [select]. The deferred [cancel()] is the last effect. *)
Fixpoint handleOrExtend `{Float64} {S : Type} `{Puller S} (w : Worker)
    (sched : list event) (st : S) (jb : job.Job.t)
  : option (S * job.Job.t * list effect * option error) :=
  match sched with
  | [] => None
  | Finished res :: _ => Some (st, jb, [Cancel], res)
  | Tick env :: rest =>
      let '(st', jb', err) := ExtendLock env jb (lock w) st in
      match err with
      | Some e =>
          Some (st', jb',
                [CallExtendLock (jobId jb) (lock w); Cancel; Cancel], Some e)
      | None =>
          match handleOrExtend w rest st' jb' with
          | Some (st2, jb2, tr, res) =>
              Some (st2, jb2, CallExtendLock (jobId jb) (lock w) :: tr, res)
          | None => None
          end
      end
  end.

Definition logIfError (msg : string) (err : option error) : list effect :=
  match err with
  | Some _ => [Log msg]
  | None => []
  end.

(** [Worker.handle]; the final storage call runs in [env], and [rnd] is
    the random draw of [next]. *)
Definition handle `{Float64} {S : Type} `{Puller S} (w : Worker)
    (sched : list event) (env : Env) (rnd : float64)
    (st : S) (jb : job.Job.t) : option (S * job.Job.t * list effect) :=
  match handleOrExtend w sched st jb with
  | None => None
  | Some (st1, jb1, tr, None) =>
      let '(st2, jb2, err) := Complete env jb1 st1 in
      Some (st2, jb2,
            tr ++ CallComplete (jobId jb1)
               :: logIfError "cannot complete job" err)
  | Some (st1, jb1, tr, Some err) =>
      if errorsIs err ErrLockLost
      then Some (st1, jb1, tr ++ [Log "job lock lost"])
      else
        let (delay, ok) := next (backoff w) (job.Job.Attempts jb1) rnd in
        if negb ok
        then
          let '(st2, jb2, err) := Kill env jb1 st1 in
          Some (st2, jb2,
                tr ++ CallKill (jobId jb1) :: logIfError "cannot kill job" err)
        else
          let '(st2, jb2, err) := Return env jb1 delay st1 in
          Some (st2, jb2,
                tr ++ CallReturn (jobId jb1) delay
                   :: logIfError "cannot return job" err)
  end.

(** The events take the loop of [handleOrExtend] through renewals that
    succeed up to one that fails with [e], leaving store and job as given. *)
Inductive extendFails `{Float64} {S : Type} `{Puller S} (w : Worker)
  : list event -> S -> job.Job.t -> error -> S -> job.Job.t -> Prop :=
| extendFails_now env rest st jb st' jb' e :
    ExtendLock env jb (lock w) st = (st', jb', Some e) ->
    extendFails w (Tick env :: rest) st jb e st' jb'
| extendFails_later env rest st jb st1 jb1 e st' jb' :
    ExtendLock env jb (lock w) st = (st1, jb1, None) ->
    extendFails w rest st1 jb1 e st' jb' ->
    extendFails w (Tick env :: rest) st jb e st' jb'.

(** The events take the loop through renewals that succeed up to the
    arrival of the handler's result [res]. *)
Inductive handlerEnds `{Float64} {S : Type} `{Puller S} (w : Worker)
  : list event -> S -> job.Job.t -> option error -> S -> job.Job.t -> Prop :=
| handlerEnds_now res rest st jb :
    handlerEnds w (Finished res :: rest) st jb res st jb
| handlerEnds_later env rest st jb st1 jb1 res st' jb' :
    ExtendLock env jb (lock w) st = (st1, jb1, None) ->
    handlerEnds w rest st1 jb1 res st' jb' ->
    handlerEnds w (Tick env :: rest) st jb res st' jb'.

(** The lifecycle transitions requested of the store. *)
Definition isTransition (e : effect) : bool :=
  match e with
  | CallComplete _ | CallReturn _ _ | CallKill _ => true
  | _ => false
  end.

Definition transitions (tr : list effect) : list effect :=
  List.filter isTransition tr.

(** *** Polling *)

(** What [Worker.pull] does to the outside: a job handed to the pool, or
    a log line. *)
Inductive pullEffect :=
| Dispatched (jb : job.Job.t)
| PullLog (msg : string).

(** The loop of [Worker.pull] over the jobs pulled. [accepts] tells, push
    by push, whether [pool.Push] hands the job over ([true]) or gives up
    because the pool is shutting down ([false]); [None]: a push is still
    blocked. *)
Fixpoint dispatch (jobs : list job.Job.t) (accepts : list bool)
  : option (list pullEffect) :=
  match jobs with
  | [] => Some []
  | entry :: rest =>
      match accepts with
      | [] => None
      | false :: _ => Some [PullLog "job push interrupted via shutdown"]
      | true :: accepts' =>
          match dispatch rest accepts' with
          | Some tr => Some (Dispatched entry :: tr)
          | None => None
          end
      end
  end.

(** [Worker.pull], one polling tick. *)
Definition pull `{Float64} {S : Type} `{Puller S} (w : Worker) (env : Env)
    (accepts : list bool) (st : S) : S * option (list pullEffect) :=
  match Pull env (batchSize w) (lock w) st with
  | (st', inr err) => (st', Some [PullLog "pull failed"])
  | (st', inl jobs) => (st', dispatch jobs accepts)
  end.

(** The jobs that a polling tick hands to the pool. *)
Definition dispatched (tr : list pullEffect) : list job.Job.t :=
  omap (fun e => match e with Dispatched jb => Some jb | _ => None end) tr.

(** Every event is a lease timer tick whose renewal succeeds. *)
Inductive allRenew `{Float64} {S : Type} `{Puller S} (w : Worker)
  : list event -> S -> job.Job.t -> Prop :=
| allRenew_nil st jb : allRenew w [] st jb
| allRenew_tick env rest st jb st1 jb1 :
    ExtendLock env jb (lock w) st = (st1, jb1, None) ->
    allRenew w rest st1 jb1 ->
    allRenew w (Tick env :: rest) st jb.

(** *** Clean worker *)

(** [gqs.Cleaner], over a store of type [S]: the store, the count and the
    error. *)
Class Cleaner (S : Type) := {
  Clean : Env -> job.Status -> option Z -> S -> S * Z * option error
}.

Module CleanWorker.

Record CleanConfig := {
  Status : job.Status;
  Interval : Z;
  Before : bool;
  Delta : Z
}.

(** [CleanWorker]; the cleaner is the [Cleaner] instance in scope. *)
Record t := {
  lc : lcBase;
  task : task;
  status : job.Status;
  interval : Z;
  before : bool;
  delta : Z
}.

Definition NewCleanWorker (config : CleanConfig) : t :=
  {| lc := {| state := 0 |};
     task := {| running := false; launches := 0 |};
     status := Status config;
     interval := Interval config;
     before := Before config;
     delta := Delta config |}.

(** [CleanWorker.beforeStamp], with the clock reading as an argument. *)
Definition beforeStamp (now : Z) (cw : t) : option Z :=
  if negb (before cw) then None
  else
    let ret := now in
    let ret := if negb (delta cw =? 0) then ret + - delta cw else ret in
    Some ret.

(** The lines that [CleanWorker.clean] logs. *)
Inductive logLine :=
| LogError (msg : string) (err : error)
| LogInfo (msg : string) (count : Z).

(** [CleanWorker.clean], one cleaning tick. *)
Definition clean {S : Type} `{Cleaner S} (cw : t) (env : Env) (st : S)
  : S * list logLine :=
  let before := beforeStamp (now env) cw in
  let '(st', count, err) := Clean env (status cw) before st in
  (st',
   match err with
   | Some e => [LogError "error while cleaning" e]
   | None => []
   end ++ [LogInfo "cleaned jobs" count]).

End CleanWorker.

End gqs.

(** ** Package [gqs/sql]: the relational store *)

Module sql.

Import gqs.

(** [jobModel]: a row of the [jobs] table. The primary key column [id] is
    the key under which the row is stored; [locked_until] is nullable. *)
Record jobModel := {
  CreatedAt : Z;
  UpdatedAt : Z;
  Status : job.Status;
  Attempts : Z;
  LockedUntil : option Z;
  NextRunAt : Z;
  Metadata : gmap string string;
  Payload : list Byte.byte
}.

Abbreviation table := (gmap message.uuid jobModel).

Definition toJob (id : message.uuid) (jm : jobModel) : job.Job.t :=
  {| job.Job.Message :=
       {| message.Id := id;
          message.Metadata := Metadata jm;
          message.Payload := Payload jm |};
     job.Job.CreatedAt := CreatedAt jm;
     job.Job.UpdatedAt := UpdatedAt jm;
     job.Job.Status := Status jm;
     job.Job.Attempts := Attempts jm;
     job.Job.LockedUntil := LockedUntil jm;
     job.Job.NextRunAt := NextRunAt jm |}.

(** [fromMessage], with the clock reading as an argument. [Attempts] is
    left at its zero value. *)
Definition fromMessage (now : Z) (msg : message.Message) (delay : Z)
  : jobModel :=
  {| Metadata := message.Metadata msg;
     Payload := message.Payload msg;
     CreatedAt := now;
     UpdatedAt := now;
     Status := job.Pending;
     Attempts := 0;
     LockedUntil := None;
     NextRunAt := now + delay |}.

(** *** Statements *)

(** The [SET] clauses of the [UPDATE] statements, one column each. *)
Definition setStatus (v : job.Status) (r : jobModel) : jobModel :=
  {| CreatedAt := CreatedAt r; UpdatedAt := UpdatedAt r; Status := v;
     Attempts := Attempts r; LockedUntil := LockedUntil r;
     NextRunAt := NextRunAt r; Metadata := Metadata r;
     Payload := Payload r |}.

Definition setAttempts (v : Z) (r : jobModel) : jobModel :=
  {| CreatedAt := CreatedAt r; UpdatedAt := UpdatedAt r; Status := Status r;
     Attempts := v; LockedUntil := LockedUntil r;
     NextRunAt := NextRunAt r; Metadata := Metadata r;
     Payload := Payload r |}.

Definition setLockedUntil (v : option Z) (r : jobModel) : jobModel :=
  {| CreatedAt := CreatedAt r; UpdatedAt := UpdatedAt r; Status := Status r;
     Attempts := Attempts r; LockedUntil := v;
     NextRunAt := NextRunAt r; Metadata := Metadata r;
     Payload := Payload r |}.

Definition setUpdatedAt (v : Z) (r : jobModel) : jobModel :=
  {| CreatedAt := CreatedAt r; UpdatedAt := v; Status := Status r;
     Attempts := Attempts r; LockedUntil := LockedUntil r;
     NextRunAt := NextRunAt r; Metadata := Metadata r;
     Payload := Payload r |}.

Definition setNextRunAt (v : Z) (r : jobModel) : jobModel :=
  {| CreatedAt := CreatedAt r; UpdatedAt := UpdatedAt r; Status := Status r;
     Attempts := Attempts r; LockedUntil := LockedUntil r;
     NextRunAt := v; Metadata := Metadata r;
     Payload := Payload r |}.

(** [database/sql.Result]: the number of rows affected, or the error of a
    driver that cannot tell. *)
Record Result := { RowsAffected : Z + error }.

Definition isAffected (res : Result) : bool :=
  match RowsAffected res with
  | inr _ => true
  | inl rows => negb (rows =? 0)
  end.

Definition getAffected (res : Result) : Z :=
  match RowsAffected res with
  | inr _ => -1
  | inl ret => ret
  end.

(** The rows a [WHERE] clause selects. *)
Definition matching (cond : message.uuid -> jobModel -> bool) (t : table)
  : table :=
  filter (fun kv => cond kv.1 kv.2 = true) t.

(** The store reports how many rows a statement has matched. *)
Definition affected (cond : message.uuid -> jobModel -> bool) (t : table)
  : Result :=
  {| RowsAffected := inl (Z.of_nat (size (matching cond t))) |}.

(** [UPDATE jobs SET set WHERE cond], one atomic statement. *)
Definition updateRows (set : jobModel -> jobModel)
    (cond : message.uuid -> jobModel -> bool) (t : table) : table * Result :=
  (map_imap (fun id r => Some (if cond id r then set r else r)) t,
   affected cond t).

(** [UPDATE jobs SET set WHERE cond RETURNING *]: the rows it has written,
    in the order of the scan. *)
Definition updateReturning (set : jobModel -> jobModel)
    (cond : message.uuid -> jobModel -> bool) (t : table)
  : table * list job.Job.t :=
  ((updateRows set cond t).1,
   (fun kv => toJob kv.1 (set kv.2)) <$> map_to_list (matching cond t)).

(** [DELETE FROM jobs WHERE cond]. *)
Definition deleteRows (cond : message.uuid -> jobModel -> bool) (t : table)
  : table * Result :=
  (filter (fun kv => cond kv.1 kv.2 = false) t, affected cond t).

(** [INSERT INTO jobs]: the primary key is unique. *)
Definition insertRow (id : message.uuid) (r : jobModel) (t : table)
  : table * option error :=
  match t !! id with
  | Some _ => (t, Some (New "UNIQUE constraint failed: jobs.id"))
  | None => (<[id := r]> t, None)
  end.

(** [Exec(ctx)] and [Scan(ctx, ...)]: the statement runs unless the round
    trip fails, in which case the table is as it was. *)
Definition Exec {A : Type} (env : Env) (stmt : table -> table * A)
    (t : table) : table * (A + error) :=
  match fail env with
  | Some e => (t, inr e)
  | None => let (t', a) := stmt t in (t', inl a)
  end.

(** The query builder's [Limit(n)] on the rows of a sub-query. The builder
    is a dependency of the package: for a positive [n] the clause reads
    [LIMIT n]; what it renders for other values is left open. *)
Class QueryBuilder := {
  Limit : forall {A : Type}, Z -> list A -> list A;
  Limit_positive : forall (A : Type) (n : Z) (l : list A),
    0 < n -> Limit n l = take (Z.to_nat n) l
}.

(** *** Pusher *)

Definition Push (env : Env) (msg : message.Message) (delay : Z) (t : table)
  : table * option error :=
  let model := fromMessage (now env) msg delay in
  match Exec env (insertRow (message.Id msg) model) t with
  | (t', inr err) => (t', Some err)
  | (t', inl err) => (t', err)
  end.

(** *** Puller *)

(** A comparison with a nullable column is not true on [NULL]. *)
Definition nullLt (x : option Z) (y : Z) : bool :=
  match x with
  | Some v => v <? y
  | None => false
  end.

(** The [WHERE] clause of the sub-query of [Pull]. *)
Definition eligible (now : Z) (r : jobModel) : bool :=
  (NextRunAt r <=? now)
  && ((Status r =? job.Pending)
      || ((Status r =? job.Processing) && nullLt (LockedUntil r) now)).

(** Eligibility in the words of the contract: the run time has come, and
    the row is [Pending], or [Processing] under a lock that has expired. *)
Definition Eligible (now : Z) (r : jobModel) : Prop :=
  NextRunAt r <= now
  /\ (Status r = job.Pending
      \/ (Status r = job.Processing
          /\ exists l, LockedUntil r = Some l /\ l < now)).

(** [ORDER BY next_run_at ASC]. *)
Definition byNextRunAt : relation (message.uuid * jobModel) :=
  fun a b => NextRunAt a.2 <= NextRunAt b.2.

#[global] Instance byNextRunAt_dec (a b : message.uuid * jobModel)
  : Decision (byNextRunAt a b).
Proof. unfold byNextRunAt. apply _. Defined.

(** The eligible rows, in the order of the sub-query before its limit. *)
Definition due (now : Z) (t : table) : list (message.uuid * jobModel) :=
  merge_sort byNextRunAt
    (filter (fun kv => eligible now kv.2 = true) (map_to_list t)).

(** The rows of the sub-query of [Pull], in its order. *)
Definition selected `{QueryBuilder} (now batch : Z) (t : table)
  : list (message.uuid * jobModel) :=
  Limit batch (due now t).

(** The sub-query proper: [SELECT id ...]. *)
Definition subQuery `{QueryBuilder} (now batch : Z) (t : table)
  : list message.uuid :=
  (selected now batch t).*1.

(** The [SET] clauses of [Pull]; [attempts = attempts + 1] is computed by
    the store. *)
Definition claim (now lockUntil : Z) (r : jobModel) : jobModel :=
  setUpdatedAt now
    (setLockedUntil (Some lockUntil)
       (setAttempts (Attempts r + 1) (setStatus job.Processing r))).

Definition Pull `{QueryBuilder} (env : Env) (batch lock : Z) (t : table)
  : table * (list job.Job.t + error) :=
  let now := now env in
  let lockUntil := now + lock in
  let ids := subQuery now batch t in
  Exec env
    (updateReturning (claim now lockUntil)
       (fun id _ => bool_decide (id ∈ ids)))
    t.

Definition ExtendLock (env : Env) (jb : job.Job.t) (lock : Z) (t : table)
  : table * job.Job.t * option error :=
  let now := now env in
  let newLock := now + lock in
  match
    Exec env
      (updateRows
         (fun r => setUpdatedAt now (setLockedUntil (Some newLock) r))
         (fun id r => (id =? jobId jb) && (Status r =? job.Processing)))
      t
  with
  | (t', inr err) => (t', jb, Some err)
  | (t', inl res) =>
      if negb (isAffected res) then (t', jb, Some ErrLockLost)
      else
        (t',
         job.Job.setStatus job.Processing
           (job.Job.setLockedUntil (Some newLock)
              (job.Job.setUpdatedAt now jb)),
         None)
  end.

Definition Complete (env : Env) (jb : job.Job.t) (t : table)
  : table * job.Job.t * option error :=
  let now := now env in
  match
    Exec env
      (updateRows
         (fun r =>
            setUpdatedAt now (setLockedUntil None (setStatus job.Done r)))
         (fun id r => (id =? jobId jb) && (Status r =? job.Processing)))
      t
  with
  | (t', inr err) => (t', jb, Some err)
  | (t', inl res) =>
      if negb (isAffected res) then (t', jb, Some ErrCompleteFailed)
      else
        (t',
         job.Job.setUpdatedAt now
           (job.Job.setLockedUntil None (job.Job.setStatus job.Done jb)),
         None)
  end.

Definition Return (env : Env) (jb : job.Job.t) (backoff : Z) (t : table)
  : table * job.Job.t * option error :=
  let now := now env in
  let nextRun := now + backoff in
  match
    Exec env
      (updateRows
         (fun r =>
            setUpdatedAt now
              (setLockedUntil None
                 (setNextRunAt nextRun (setStatus job.Pending r))))
         (fun id r => (id =? jobId jb) && (Status r =? job.Processing)))
      t
  with
  | (t', inr err) => (t', jb, Some err)
  | (t', inl res) =>
      if negb (isAffected res) then (t', jb, Some ErrJobLost)
      else
        (t',
         job.Job.setUpdatedAt now
           (job.Job.setLockedUntil None
              (job.Job.setNextRunAt nextRun
                 (job.Job.setStatus job.Pending jb))),
         None)
  end.

Definition Kill (env : Env) (jb : job.Job.t) (t : table)
  : table * job.Job.t * option error :=
  let now := now env in
  match
    Exec env
      (updateRows
         (fun r =>
            setUpdatedAt now (setLockedUntil None (setStatus job.Dead r)))
         (fun id r =>
            (id =? jobId jb)
            && ((Status r =? job.Pending) || (Status r =? job.Processing))))
      t
  with
  | (t', inr err) => (t', jb, Some err)
  | (t', inl res) =>
      if negb (isAffected res) then (t', jb, Some ErrJobLost)
      else
        (t',
         job.Job.setUpdatedAt now
           (job.Job.setLockedUntil None (job.Job.setStatus job.Dead jb)),
         None)
  end.

#[global] Instance puller `{QueryBuilder} : Puller table := {|
  gqs.Pull := Pull;
  gqs.ExtendLock := ExtendLock;
  gqs.Complete := Complete;
  gqs.Return := Return;
  gqs.Kill := Kill
|}.

(** *** Cleaner *)

(** The [WHERE] clauses that [Clean] adds to its [DELETE]. *)
Definition cleanStatus (status : job.Status) (r : jobModel) : bool :=
  if negb (status =? 0) then Status r =? status
  else (Status r =? job.Done) || (Status r =? job.Dead).

Definition cleanBefore (before : option Z) (r : jobModel) : bool :=
  match before with
  | Some b => UpdatedAt r <=? b
  | None => true
  end.

Definition Clean (env : Env) (status : job.Status) (before : option Z)
    (t : table) : table * Z * option error :=
  if negb (status =? 0) && negb (status =? job.Dead)
     && negb (status =? job.Done)
  then (t, 0, Some ErrBadStatus)
  else
    match
      Exec env
        (deleteRows (fun _ r => cleanStatus status r && cleanBefore before r))
        t
    with
    | (t', inr err) => (t', 0, Some err)
    | (t', inl res) => (t', getAffected res, None)
    end.

(** *** What the contract says of a transition *)

(** The rows that the four transitions write, and their pre-states. *)
Definition extended (now lock : Z) (r : jobModel) : jobModel :=
  setUpdatedAt now (setLockedUntil (Some (now + lock)) r).

Definition completed (now : Z) (r : jobModel) : jobModel :=
  setUpdatedAt now (setLockedUntil None (setStatus job.Done r)).

Definition returned (now backoff : Z) (r : jobModel) : jobModel :=
  setUpdatedAt now
    (setLockedUntil None
       (setNextRunAt (now + backoff) (setStatus job.Pending r))).

Definition killed (now : Z) (r : jobModel) : jobModel :=
  setUpdatedAt now (setLockedUntil None (setStatus job.Dead r)).

Definition isProcessing (r : jobModel) : bool := Status r =? job.Processing.

Definition isLive (r : jobModel) : bool :=
  (Status r =? job.Pending) || (Status r =? job.Processing).

(** The fields of a snapshot that no transition writes. *)
Definition sameFrame (jb jb' : job.Job.t) : Prop :=
  job.Job.Message jb' = job.Job.Message jb
  /\ job.Job.CreatedAt jb' = job.Job.CreatedAt jb
  /\ job.Job.Attempts jb' = job.Job.Attempts jb.

(** The state fields of a snapshot read the given values. *)
Definition showsState (jb : job.Job.t) (status : job.Status)
    (lockedUntil : option Z) (updatedAt nextRunAt : Z) : Prop :=
  job.Job.Status jb = status
  /\ job.Job.LockedUntil jb = lockedUntil
  /\ job.Job.UpdatedAt jb = updatedAt
  /\ job.Job.NextRunAt jb = nextRunAt.

(** The outcome [out] of a transition called with the snapshot [jb]: on
    success the snapshot reads the given post-transition values and keeps
    its frame; on an error, of any kind, it is untouched. *)
Definition refreshes (jb : job.Job.t) (status : job.Status)
    (lockedUntil : option Z) (updatedAt nextRunAt : Z)
    (out : table * job.Job.t * option error) : Prop :=
  (out.2 = None ->
   showsState out.1.2 status lockedUntil updatedAt nextRunAt
   /\ sameFrame jb out.1.2)
  /\ (out.2 <> None -> out.1.2 = jb).

(** The rows that [Clean] is to delete, in the words of the contract: the
    rows in the given status, or in [Done] or [Dead] when it is [Unknown],
    and, with a cut-off, among those only the rows last updated by then. *)
Definition cleanTarget (status : job.Status) (before : option Z)
    (r : jobModel) : Prop :=
  (if decide (status = job.Unknown)
   then Status r = job.Done \/ Status r = job.Dead
   else Status r = status)
  /\ (forall b, before = Some b -> UpdatedAt r <= b).

(** *** The store as a transition system *)

(** One mutating operation of the package, by any caller. *)
Inductive step `{QueryBuilder} : table -> table -> Prop :=
| step_Push env msg delay t :
    step t (Push env msg delay t).1
| step_Pull env batch lock t :
    step t (Pull env batch lock t).1
| step_ExtendLock env jb lock t :
    step t (ExtendLock env jb lock t).1.1
| step_Complete env jb t :
    step t (Complete env jb t).1.1
| step_Return env jb backoff t :
    step t (Return env jb backoff t).1.1
| step_Kill env jb t :
    step t (Kill env jb t).1.1
| step_Clean env status before t :
    step t (Clean env status before t).1.1.

(** The tables that operations build from the empty one. *)
Inductive reachable `{QueryBuilder} : table -> Prop :=
| reachable_empty : reachable ∅
| reachable_step t t' : reachable t -> step t t' -> reachable t'.

(** A property of every row of a table. *)
Definition allRows (P : jobModel -> Prop) (t : table) : Prop :=
  forall id r, t !! id = Some r -> P r.

(** The lock column is set exactly on the rows in [Processing]. *)
Definition lockedIffProcessing (r : jobModel) : Prop :=
  is_Some (LockedUntil r) <-> Status r = job.Processing.

(** *** Observer *)

(** [database/sql.ErrNoRows]. *)
Definition ErrNoRows : error := New "sql: no rows in result set".

(** [SELECT ... WHERE id = ?] scanned into one row. *)
Definition scanRow (env : Env) (id : message.uuid) (t : table)
  : jobModel + error :=
  match fail env with
  | Some e => inr e
  | None =>
      match t !! id with
      | Some r => inl r
      | None => inr ErrNoRows
      end
  end.

(** [Observer.Get]: the job (nil when there is none) and the error. *)
Definition Get (env : Env) (id : message.uuid) (t : table)
  : option job.Job.t * option error :=
  match scanRow env id t with
  | inr err =>
      if errorsIs err ErrNoRows then (None, None) else (None, Some err)
  | inl ret => (Some (toJob id ret), None)
  end.

(** The rows that [List] asks for: the status filter unless the status is
    zero, the limit when it is positive, no order. *)
Definition listed `{QueryBuilder} (status : job.Status) (limit : Z)
    (t : table) : list (message.uuid * jobModel) :=
  let rows := map_to_list t in
  let rows := if negb (status =? 0)
              then filter (fun kv => Status kv.2 = status) rows
              else rows in
  if 0 <? limit then Limit limit rows else rows.

(** [Observer.List]. *)
Definition List `{QueryBuilder} (env : Env) (status : job.Status)
    (limit : Z) (t : table) : list job.Job.t + error :=
  (Exec env
     (fun t => (t, (fun kv => toJob kv.1 kv.2) <$> listed status limit t))
     t).2.

(** *** The package as a [Cleaner] *)

#[global] Instance cleaner : Cleaner table := {| gqs.Clean := Clean |}.

(** *** Words for the properties of the store *)

(** A row in a terminal state. *)
Definition terminal (r : jobModel) : Prop :=
  Status r = job.Done \/ Status r = job.Dead.

(** Two versions of a row carry the same message and creation time. *)
Definition sameMessage (r r' : jobModel) : Prop :=
  CreatedAt r' = CreatedAt r
  /\ Metadata r' = Metadata r
  /\ Payload r' = Payload r.

(** A query builder whose limit only drops rows of the sub-query. *)
Definition limitSelects `{QueryBuilder} : Prop :=
  forall (A : Type) (n : Z) (l : list A), Limit n l `sublist_of` l.

(** The five named statuses but [Unknown]. *)
Definition persisted (r : jobModel) : Prop :=
  Status r ∈ [job.Pending; job.Processing; job.Done; job.Dead].

End sql.

(** ** Package [internal]: the timer task *)

Module internal.

Import gqs.

(** What the [select] loop of [TimerTask.do] receives: the context is
    cancelled, or the ticker fires (the handler then runs in [env]). *)
Inductive timerEvent :=
| CtxDone
| TickerFired (env : Env).

(** How far a task has come: still in its loop, returned, or stopped by a
    panic. *)
Inductive outcome (S : Type) :=
| Waiting (st : S)
| Returned (st : S)
| Panicked.

Arguments Waiting {S} st.
Arguments Returned {S} st.
Arguments Panicked {S}.

(** The loop of [TimerTask.do]. *)
Fixpoint loop {S : Type} (h : Env -> S -> S) (events : list timerEvent)
    (st : S) : outcome S :=
  match events with
  | [] => Waiting st
  | CtxDone :: _ => Returned st
  | TickerFired env :: rest => loop h rest (h env st)
  end.

(** [TimerTask.do]: [time.NewTicker] panics on a period that is not
    positive; the handler [h] runs once, in [env], before the loop. *)
Definition do {S : Type} (env : Env) (events : list timerEvent)
    (h : Env -> S -> S) (timeout : Z) (st : S) : outcome S :=
  if timeout <=? 0 then Panicked else loop h events (h env st).

End internal.

(** ** Concrete stores and workers *)

Module examples.

Import gqs.

(** Exact rational arithmetic in the place of [float64]: conversions and
    powers with an integral exponent are exact, [to_int64] truncates. *)
Definition exactFloat : Float64 :=
  {| float64 := Q;
     of_int := inject_Z;
     fmul := Qmult;
     fadd := Qplus;
     fsub := Qminus;
     fgt := fun x y => negb (Qle_bool x y);
     Pow := fun x y => Qpower x (Qfloor y);
     to_int64 := fun x => Z.quot (Qnum x) (Z.pos (Qden x)) |}.

(** A query builder that writes [LIMIT n] for a positive [n] and no clause
    otherwise. *)
Definition limitIfPositive {A : Type} (n : Z) (l : list A) : list A :=
  if 0 <? n then take (Z.to_nat n) l else l.

Definition builder : sql.QueryBuilder.
Proof.
  refine {| sql.Limit := @limitIfPositive |}.
  intros A n l Hn. unfold limitIfPositive.
  destruct (Z.ltb_spec 0 n) as [_ | Hle]; [reflexivity | lia].
Defined.

(** The zero value of [BackoffConfig]. *)
Definition noBackoff : @BackoffConfig exactFloat :=
  @Build_BackoffConfig exactFloat 0 0 0 (inject_Z 0) (inject_Z 0).

(** The retry test's policy: three retries, 10ms, no growth. *)
Definition retryBackoff : @BackoffConfig exactFloat :=
  @Build_BackoffConfig exactFloat 3 10000000 100000000 (inject_Z 1)
    (inject_Z 0).

(** The configuration of the package's worker tests: no backoff set. *)
Definition testConfig : @WorkerConfig exactFloat :=
  {| Concurrency := 1;
     Queue := 10;
     BatchSize := 1;
     PullInterval := 20000000;
     LockTimeout := 200000000;
     Backoff := noBackoff |}.

Definition msg (id : Z) : message.Message :=
  {| message.Id := id; message.Metadata := ∅; message.Payload := [] |}.

Definition at_ (t : Z) : Env := {| now := t; fail := None |}.

Definition broken (t : Z) : Env :=
  {| now := t; fail := Some (New "driver: bad connection") |}.

(** One message pushed at time 100. *)
Definition pushed : sql.table := (sql.Push (at_ 100) (msg 7) 0 ∅).1.

(** ... and claimed at time 110 under a lease of 50. *)
Definition claimed : sql.table :=
  (@sql.Pull builder (at_ 110) 1 50 pushed).1.

Definition claimedJob : job.Job.t :=
  sql.toJob 7 (sql.claim 110 160 (sql.fromMessage 100 (msg 7) 0)).

(** The worker of the tests, and the job of [claimed] in its hands. *)
Definition testWorker : @Worker exactFloat := NewWorker testConfig.

Definition handleClaimed (st : sql.table) (sched : list event)
  : option (sql.table * job.Job.t * list effect) :=
  @handle exactFloat sql.table (@sql.puller builder) testWorker sched
    (at_ 120) (inject_Z 0) st claimedJob.

(** The store after another worker has completed the job at time 116. *)
Definition finished : sql.table :=
  (sql.Complete (at_ 116) claimedJob claimed).1.1.

(** The zero value of [WorkerConfig]. *)
Definition zeroConfig : @WorkerConfig exactFloat :=
  {| Concurrency := 0;
     Queue := 0;
     BatchSize := 0;
     PullInterval := 0;
     LockTimeout := 0;
     Backoff := noBackoff |}.

(** Start, stop, start again. *)
Definition restart : list lcCall := [CallStart; CallStop true; CallStart].

(** Two messages pushed at times 100 and 101, and the second one as a
    [Pull] of one job claims it at time 150, after a first [Pull] of one
    job at time 110. *)
Definition pushedTwo : sql.table :=
  (sql.Push (at_ 101) (msg 8) 0 pushed).1.

Definition secondJob : job.Job.t :=
  sql.toJob 8 (sql.claim 150 200 (sql.fromMessage 101 (msg 8) 0)).

(** A worker with the retry test's policy, and the snapshot of a job on
    its fourth attempt. *)
Definition retryWorker : @Worker exactFloat :=
  NewWorker
    {| Concurrency := 1;
       Queue := 10;
       BatchSize := 1;
       PullInterval := 20000000;
       LockTimeout := 200000000;
       Backoff := retryBackoff |}.

Definition tiredJob : job.Job.t :=
  {| job.Job.Message := msg 7;
     job.Job.CreatedAt := 100;
     job.Job.UpdatedAt := 110;
     job.Job.Status := job.Processing;
     job.Job.Attempts := 4;
     job.Job.LockedUntil := Some 160;
     job.Job.NextRunAt := 100 |}.

Definition handleWith (w : @Worker exactFloat) (jb : job.Job.t)
    (sched : list event) : option (sql.table * job.Job.t * list effect) :=
  @handle exactFloat sql.table (@sql.puller builder) w sched
    (at_ 120) (inject_Z 0) claimed jb.

(** The job of [pushed] as a polling tick of [testWorker] claims it at
    time 110, under the worker's lock timeout. *)
Definition polledJob : job.Job.t :=
  sql.toJob 7 (sql.claim 110 200000110 (sql.fromMessage 100 (msg 7) 0)).

End examples.

(** * Properties *)

(** ** Status text codec *)

Section StatusCodec.

Import job.

Lemma statusFromString_other (s : string) :
  s ∉ ["Unknown"; "Pending"; "Processing"; "Done"; "Dead"] ->
  statusFromString s = inr (String.append "unknown status: " s).
Proof.
  intros Hs. unfold statusFromString.
  repeat match goal with
         | |- context [String.eqb s ?c] =>
             destruct (String.eqb_spec s c) as [-> | _];
             [exfalso; apply Hs; set_solver |]
         end.
  reflexivity.
Qed.

(** C8. Parsing the canonical name of each of the five named statuses gives
    the status back, and [ParseStatus] returns an error for every string
    that is not one of the five canonical names. *)
Theorem ParseStatus_roundtrip :
  (forall s : Status,
     s ∈ [Unknown; Pending; Processing; Done; Dead] ->
     ParseStatus (String s) = inl s) /\
  (forall str : string,
     str ∉ ["Unknown"; "Pending"; "Processing"; "Done"; "Dead"] ->
     exists err, ParseStatus str = inr err).
Proof.
  split.
  - intros s Hs.
    repeat (apply elem_of_cons in Hs as [-> | Hs]; [reflexivity |]).
    by apply elem_of_nil in Hs.
  - intros str Hstr. eexists. by apply statusFromString_other.
Qed.

Lemma ParseStatus_roundtrip_witness :
  ParseStatus (String Processing) = inl Processing /\
  exists err, ParseStatus "processing" = inr err.
Proof.
  destruct ParseStatus_roundtrip as [Hnamed Hother]. split.
  - apply Hnamed. set_solver.
  - apply Hother. intros Hin.
    repeat (apply elem_of_cons in Hin as [Heq | Hin]; [discriminate Heq |]).
    by apply elem_of_nil in Hin.
Defined.

End StatusCodec.

(** ** Backoff *)

Section Backoff.

Import gqs.
Context `{F : Float64}.

Lemma next_exhausted (bc : BackoffConfig) (attempt : Z) (rnd : float64) :
  (next bc attempt rnd).2 = false <->
  0 < MaxRetries bc /\ MaxRetries bc < attempt.
Proof.
  unfold next.
  destruct (Z.ltb_spec 0 (MaxRetries bc)), (Z.ltb_spec (MaxRetries bc) attempt);
    simpl; split; intros; try discriminate; try lia; try reflexivity.
Qed.

Lemma sub32_pred (attempt : Z) :
  1 <= attempt < 2 ^ 32 -> sub32 attempt 1 = attempt - 1.
Proof. intros Hrange. unfold sub32. apply Z.mod_small. lia. Qed.

(** C7. [next] reports exhaustion exactly when [MaxRetries > 0] and
    [attempt > MaxRetries], so never when [MaxRetries = 0]; otherwise, for
    an attempt count from 1 on, the delay is the conversion of
    [InitialInterval * Multiplier ^ (attempt - 1)] clamped above by
    [MaxInterval], and with a positive randomization factor [r] the
    conversion of the point that the draw picks between [exp - r * exp] and
    [exp + r * exp]. *)
Theorem next_spec (bc : BackoffConfig) (attempt : Z) (rnd : float64) :
  ((next bc attempt rnd).2 = false <->
   0 < MaxRetries bc /\ MaxRetries bc < attempt) /\
  (MaxRetries bc = 0 -> (next bc attempt rnd).2 = true) /\
  ((next bc attempt rnd).2 = true ->
   1 <= attempt < 2 ^ 32 ->
   let raw := fmul (of_int (InitialInterval bc))
                   (Pow (Multiplier bc) (of_int (attempt - 1))) in
   let exp := if fgt raw (of_int (MaxInterval bc))
              then of_int (MaxInterval bc) else raw in
   let r := RandomizationFactor bc in
   let minExp := fsub exp (fmul r exp) in
   let maxExp := fadd exp (fmul r exp) in
   (next bc attempt rnd).1 =
   if fgt r (of_int 0)
   then to_int64 (fadd minExp (fmul rnd (fsub maxExp minExp)))
   else to_int64 exp).
Proof.
  split; [apply next_exhausted |]. split.
  - intros Hzero. destruct ((next bc attempt rnd).2) eqn:Hok; [reflexivity |].
    apply next_exhausted in Hok. lia.
  - intros Hok Hrange. cbv zeta. revert Hok. unfold next.
    destruct ((0 <? MaxRetries bc) && (MaxRetries bc <? attempt)) eqn:Hguard;
      [discriminate |].
    intros _. rewrite (sub32_pred _ Hrange). simpl.
    destruct (fgt (RandomizationFactor bc) (of_int 0)); reflexivity.
Qed.

End Backoff.

Lemma next_spec_witness :
  1 <= 2 < 2 ^ 32 /\
  (@gqs.next examples.exactFloat examples.retryBackoff 2 (inject_Z 0)).2
  = true /\
  (@gqs.next examples.exactFloat examples.retryBackoff 2 (inject_Z 0)).1
  = 10000000.
Proof.
  assert (Hrange : 1 <= 2 < 2 ^ 32) by lia.
  assert (Hok : (@gqs.next examples.exactFloat examples.retryBackoff 2
                   (inject_Z 0)).2 = true) by reflexivity.
  split; [exact Hrange |]. split; [exact Hok |].
  pose proof (@next_spec examples.exactFloat examples.retryBackoff 2
                (inject_Z 0)) as (_ & _ & Hdelay).
  rewrite (Hdelay Hok Hrange). vm_compute. reflexivity.
Defined.

(** ** Lifecycle guard *)

Section Lifecycle.

Import gqs.
Context `{F : Float64}.

Lemma withLifecycle_id (w : Worker) :
  withLifecycle w (lc w) (pullTask w) (pool w) = w.
Proof. by destruct w. Qed.

Lemma Start_started (w : Worker) :
  state (lc w) = started -> Start w = (w, Some ErrDoubleStarted).
Proof.
  intros Hst. unfold Start, tryStart, CompareAndSwap. rewrite Hst. simpl.
  by rewrite withLifecycle_id.
Qed.

Lemma Stop_stopped (inTime : bool) (w : Worker) :
  state (lc w) = stopped -> Stop inTime w = (w, Some ErrDoubleStopped).
Proof.
  intros Hst. unfold Stop, tryStop, CompareAndSwap. rewrite Hst. simpl.
  by rewrite withLifecycle_id.
Qed.

(** One call keeps the balance between the starts and the stops that took
    effect. *)
Lemma Start_balance (w : Worker) :
  (match (Start w).2 with None => 1 | Some _ => 0 end + isStarted w
   = isStarted (Start w).1)%nat.
Proof.
  unfold Start, tryStart, CompareAndSwap, isStarted.
  destruct (Z.eqb_spec (state (lc w)) stopped) as [Hs | Hs]; simpl.
  - rewrite Hs. reflexivity.
  - destruct (state (lc w) =? started); reflexivity.
Qed.

Lemma Stop_balance (inTime : bool) (w : Worker) :
  (isStarted w
   = (if bool_decide ((Stop inTime w).2 = Some ErrDoubleStopped)
      then 0 else 1) + isStarted (Stop inTime w).1)%nat.
Proof.
  unfold Stop, tryStop, CompareAndSwap, isStarted.
  destruct (Z.eqb_spec (state (lc w)) started) as [Hs | Hs]; simpl.
  - destruct inTime; reflexivity.
  - apply Z.eqb_neq in Hs. rewrite Hs. reflexivity.
Qed.

Lemma runCalls_balance (calls : list lcCall) (w : Worker) :
  (successfulStarts calls (runCalls calls w).2 + isStarted w
   = passedStops calls (runCalls calls w).2
     + isStarted (runCalls calls w).1)%nat.
Proof.
  revert w. induction calls as [| c calls IH]; intros w;
    cbn [runCalls]; [simpl; lia |].
  destruct c as [| inTime].
  - pose proof (Start_balance w) as Hb.
    destruct (Start w) as [w1 r] eqn:Hstart. cbn [fst snd] in Hb.
    specialize (IH w1). destruct (runCalls calls w1) as [w2 rs].
    cbn [fst snd successfulStarts passedStops] in *. destruct r; lia.
  - pose proof (Stop_balance inTime w) as Hb.
    destruct (Stop inTime w) as [w1 r] eqn:Hstop. cbn [fst snd] in Hb.
    specialize (IH w1). destruct (runCalls calls w1) as [w2 rs].
    cbn [fst snd successfulStarts passedStops] in *.
    destruct (bool_decide (r = Some ErrDoubleStopped)); lia.
Qed.

Lemma Start_iff (w : Worker) :
  (Start w).2 = None <-> state (lc w) = stopped.
Proof.
  unfold Start, tryStart, CompareAndSwap.
  destruct (Z.eqb_spec (state (lc w)) stopped) as [Hs | Hs]; simpl.
  - done.
  - split; [done | by intros Hst].
Qed.

Lemma Start_stopped (w : Worker) :
  state (lc w) = stopped ->
  (Start w).2 = None
  /\ state (lc (Start w).1) = started
  /\ pullTask (Start w).1 = taskStart (pullTask w)
  /\ pool (Start w).1 = taskStart (pool w).
Proof.
  intros Hst. unfold Start, tryStart, CompareAndSwap. rewrite Hst. done.
Qed.

Lemma Stop_iff (inTime : bool) (w : Worker) :
  (Stop inTime w).2 <> Some ErrDoubleStopped <-> state (lc w) = started.
Proof.
  unfold Stop, tryStop, CompareAndSwap.
  destruct (Z.eqb_spec (state (lc w)) started) as [Hs | Hs]; simpl.
  - by destruct inTime.
  - split; [done | by intros Hst].
Qed.

Lemma Stop_passes (inTime : bool) (w : Worker) :
  state (lc w) = started ->
  (Stop inTime w).2 = (if inTime then None else Some ErrStopTimeout)
  /\ state (lc (Stop inTime w).1) = stopped
  /\ pullTask (Stop inTime w).1 = taskStop (pullTask w)
  /\ pool (Stop inTime w).1 = taskStop (pool w).
Proof.
  intros Hst. unfold Stop, tryStop, CompareAndSwap. rewrite Hst.
  by destruct inTime.
Qed.

(** The guard has two states only. *)
Lemma runCalls_two_states (calls : list lcCall) (w : Worker) :
  state (lc w) = stopped \/ state (lc w) = started ->
  state (lc (runCalls calls w).1) = stopped
  \/ state (lc (runCalls calls w).1) = started.
Proof.
  revert w. induction calls as [| c calls IH]; intros w Hw; [done |].
  cbn [runCalls].
  assert (Hnext : forall w1 r,
            match c with
            | CallStart => Start w
            | CallStop inTime => Stop inTime w
            end = (w1, r) ->
            state (lc w1) = stopped \/ state (lc w1) = started).
  { intros w1 r Hcall. destruct c as [| inTime], Hw as [Hw | Hw].
    - destruct (Start_stopped w Hw) as (_ & Hst & _).
      rewrite Hcall in Hst. by right.
    - rewrite (Start_started w Hw) in Hcall. injection Hcall as <- _.
      by right.
    - rewrite (Stop_stopped inTime w Hw) in Hcall. injection Hcall as <- _.
      by left.
    - destruct (Stop_passes inTime w Hw) as (_ & Hst & _).
      rewrite Hcall in Hst. by left. }
  destruct (match c with
            | CallStart => Start w
            | CallStop inTime => Stop inTime w
            end) as [w1 r].
  specialize (IH w1 (Hnext w1 r eq_refl)).
  by destruct (runCalls calls w1) as [w2 rs].
Qed.

(** C9, as the code has it. The guard is one atomic variable with two
    states, stopped and started; a new worker is stopped, and every call
    sequence leaves the worker in one of the two. [Start] on a worker in
    the started state returns [ErrDoubleStarted] and [Stop] on a worker in
    the stopped state, a new worker included, returns [ErrDoubleStopped],
    both without any effect. [Start] returns nil exactly on a stopped
    worker, which it puts in the started state with both tasks launched;
    [Stop] gets past the guard exactly on a started worker, which it puts
    back in the stopped state with both tasks told to stop, whether they
    finish in time (nil) or not ([ErrStopTimeout]). So the [Start] that
    follows a [Stop] that got past the guard succeeds again, and in every
    call sequence on a new worker the successful starts are the stops
    that got past the guard, plus one when the worker ends started. *)
Theorem lifecycle_guard :
  (forall w : Worker,
     state (lc w) = started -> Start w = (w, Some ErrDoubleStarted)) /\
  (forall (w : Worker) (inTime : bool),
     state (lc w) = stopped -> Stop inTime w = (w, Some ErrDoubleStopped)) /\
  (forall (config : WorkerConfig) (inTime : bool),
     state (lc (NewWorker config)) = stopped
     /\ Stop inTime (NewWorker config)
        = (NewWorker config, Some ErrDoubleStopped)) /\
  (forall w : Worker, (Start w).2 = None <-> state (lc w) = stopped) /\
  (forall w : Worker,
     state (lc w) = stopped ->
     state (lc (Start w).1) = started
     /\ pullTask (Start w).1 = taskStart (pullTask w)
     /\ pool (Start w).1 = taskStart (pool w)) /\
  (forall (w : Worker) (inTime : bool),
     (Stop inTime w).2 <> Some ErrDoubleStopped
     <-> state (lc w) = started) /\
  (forall (w : Worker) (inTime : bool),
     state (lc w) = started ->
     (Stop inTime w).2 = (if inTime then None else Some ErrStopTimeout)
     /\ state (lc (Stop inTime w).1) = stopped
     /\ pullTask (Stop inTime w).1 = taskStop (pullTask w)
     /\ pool (Stop inTime w).1 = taskStop (pool w)) /\
  (forall (w : Worker) (inTime : bool),
     state (lc w) = started ->
     (Start (Stop inTime w).1).2 = None
     /\ state (lc (Start (Stop inTime w).1).1) = started) /\
  (forall (config : WorkerConfig) (calls : list lcCall),
     (state (lc (runCalls calls (NewWorker config)).1) = stopped
      \/ state (lc (runCalls calls (NewWorker config)).1) = started)
     /\ (successfulStarts calls (runCalls calls (NewWorker config)).2
         = passedStops calls (runCalls calls (NewWorker config)).2
           + isStarted (runCalls calls (NewWorker config)).1)%nat).
Proof.
  split; [exact Start_started |].
  split; [intros w inTime; apply Stop_stopped |].
  split; [intros config inTime; split; [done | by apply Stop_stopped] |].
  split; [exact Start_iff |].
  split; [intros w Hst; by destruct (Start_stopped w Hst) as (_ & ?) |].
  split; [intros w inTime; apply Stop_iff |].
  split; [intros w inTime; apply Stop_passes |].
  split.
  - intros w inTime Hst.
    destruct (Stop_passes inTime w Hst) as (_ & Hstopped & _).
    by destruct (Start_stopped _ Hstopped) as (Hnil & Hstarted & _).
  - intros config calls. split.
    + apply runCalls_two_states. by left.
    + pose proof (runCalls_balance calls (NewWorker config)) as Hb.
      change (isStarted (NewWorker config)) with 0%nat in Hb. lia.
Qed.

End Lifecycle.

Lemma lifecycle_guard_witness :
  (gqs.Start
     (gqs.Stop true (gqs.Start (gqs.NewWorker examples.testConfig)).1).1).2
  = None
  /\ gqs.state
       (gqs.lc
          (gqs.Start
             (gqs.Stop true
                (gqs.Start (gqs.NewWorker examples.testConfig)).1).1).1)
     = gqs.started.
Proof.
  pose proof (@lifecycle_guard examples.exactFloat)
    as (_ & _ & _ & _ & _ & _ & _ & Hrestart & _).
  apply Hrestart. reflexivity.
Defined.

(** C9, as stated, fails: on one worker, a start after a stop is a second
    successful start, and it launches the background tasks a second time. *)
Lemma second_Start_succeeds :
  (gqs.runCalls examples.restart (gqs.NewWorker examples.testConfig)).2
  = [None; None; None] /\
  gqs.successfulStarts examples.restart
    (gqs.runCalls examples.restart (gqs.NewWorker examples.testConfig)).2
  = 2%nat /\
  gqs.launches
    (gqs.pool
       (gqs.runCalls examples.restart (gqs.NewWorker examples.testConfig)).1)
  = 2%nat.
Proof. repeat split. Qed.

(** ** Statements on one row *)

Section Statements.

Import gqs sql.

Implicit Types (t : table) (r : jobModel) (k id : message.uuid).

Lemma lookup_updateRows set cond t id :
  (updateRows set cond t).1 !! id
  = (fun r => if cond id r then set r else r) <$> t !! id.
Proof.
  unfold updateRows. simpl. rewrite map_lookup_imap.
  by destruct (t !! id).
Qed.

Lemma lookup_matching cond t id r :
  matching cond t !! id = Some r <-> t !! id = Some r /\ cond id r = true.
Proof. unfold matching. by rewrite map_lookup_filter_Some. Qed.

(** An [UPDATE ... WHERE id = k AND c] writes the row of key [k], if it is
    there and [c] holds of it, and nothing else. *)
Lemma updateRows_key set (c : jobModel -> bool) k t :
  (updateRows set (fun id r => (id =? k) && c r) t).1
  = match t !! k with
    | Some r => if c r then <[k := set r]> t else t
    | None => t
    end.
Proof.
  apply map_eq. intros id. rewrite lookup_updateRows.
  destruct (decide (id = k)) as [-> | Hne].
  - rewrite Z.eqb_refl. simpl.
    destruct (t !! k) as [r |] eqn:Hk; simpl; [| by rewrite Hk].
    destruct (c r); [by rewrite lookup_insert_eq | by rewrite Hk].
  - apply Z.eqb_neq in Hne as Hneb. rewrite Hneb. simpl.
    assert (Hid : (fun r => r) <$> t !! id = t !! id) by by destruct (t !! id).
    rewrite Hid.
    destruct (t !! k) as [r |]; [| done].
    destruct (c r); [| done]. by rewrite lookup_insert_ne.
Qed.

Lemma matching_key (c : jobModel -> bool) k t :
  matching (fun id r => (id =? k) && c r) t
  = match t !! k with
    | Some r => if c r then {[k := r]} else ∅
    | None => ∅
    end.
Proof.
  apply map_eq. intros id. apply option_eq. intros r'.
  rewrite lookup_matching, andb_true_iff, Z.eqb_eq.
  destruct (t !! k) as [r |] eqn:Hk.
  - destruct (c r) eqn:Hc.
    + rewrite lookup_singleton_Some. split.
      * intros (Hid & -> & _). split; congruence.
      * intros (<- & <-). done.
    + rewrite lookup_empty. split; [| done].
      intros (Hid & -> & Hc'). congruence.
  - rewrite lookup_empty. split; [| done].
    intros (Hid & -> & _). congruence.
Qed.

Lemma isAffected_key (c : jobModel -> bool) k t :
  isAffected (affected (fun id r => (id =? k) && c r) t)
  = match t !! k with
    | Some r => c r
    | None => false
    end.
Proof.
  unfold isAffected, affected. simpl. rewrite matching_key.
  destruct (t !! k) as [r |]; [| done].
  destruct (c r); [by rewrite map_size_singleton | done].
Qed.

(** A transition whose round trip to the store fails changes nothing. *)
Lemma Exec_fail {A : Type} env (stmt : table -> table * A) t e :
  fail env = Some e -> Exec env stmt t = (t, inr e).
Proof. intros Hf. unfold Exec. by rewrite Hf. Qed.

Lemma Exec_live {A : Type} env (stmt : table -> table * A) t :
  fail env = None -> Exec env stmt t = ((stmt t).1, inl (stmt t).2).
Proof. intros Hf. unfold Exec. rewrite Hf. by destruct (stmt t). Qed.

End Statements.

(** ** Puller transitions on one job *)

Section Transitions.

Import gqs sql.

Implicit Types (t : table) (r : jobModel) (jb : job.Job.t) (env : Env).

Ltac run_transition Hlive c :=
  rewrite Exec_live by exact Hlive;
  rewrite (updateRows_key _ c);
  cbn [snd updateRows];
  rewrite (isAffected_key c);
  repeat case_match; simplify_eq; try reflexivity.

Lemma ExtendLock_run env jb lock t :
  fail env = None ->
  ExtendLock env jb lock t
  = match t !! jobId jb with
    | Some r =>
        if isProcessing r
        then (<[jobId jb := extended (now env) lock r]> t,
              job.Job.setStatus job.Processing
                (job.Job.setLockedUntil (Some (now env + lock))
                   (job.Job.setUpdatedAt (now env) jb)),
              None)
        else (t, jb, Some ErrLockLost)
    | None => (t, jb, Some ErrLockLost)
    end.
Proof. intros Hlive. unfold ExtendLock. run_transition Hlive isProcessing. Qed.

Lemma Complete_run env jb t :
  fail env = None ->
  Complete env jb t
  = match t !! jobId jb with
    | Some r =>
        if isProcessing r
        then (<[jobId jb := completed (now env) r]> t,
              job.Job.setUpdatedAt (now env)
                (job.Job.setLockedUntil None (job.Job.setStatus job.Done jb)),
              None)
        else (t, jb, Some ErrCompleteFailed)
    | None => (t, jb, Some ErrCompleteFailed)
    end.
Proof. intros Hlive. unfold Complete. run_transition Hlive isProcessing. Qed.

Lemma Return_run env jb backoff t :
  fail env = None ->
  Return env jb backoff t
  = match t !! jobId jb with
    | Some r =>
        if isProcessing r
        then (<[jobId jb := returned (now env) backoff r]> t,
              job.Job.setUpdatedAt (now env)
                (job.Job.setLockedUntil None
                   (job.Job.setNextRunAt (now env + backoff)
                      (job.Job.setStatus job.Pending jb))),
              None)
        else (t, jb, Some ErrJobLost)
    | None => (t, jb, Some ErrJobLost)
    end.
Proof. intros Hlive. unfold Return. run_transition Hlive isProcessing. Qed.

Lemma Kill_run env jb t :
  fail env = None ->
  Kill env jb t
  = match t !! jobId jb with
    | Some r =>
        if isLive r
        then (<[jobId jb := killed (now env) r]> t,
              job.Job.setUpdatedAt (now env)
                (job.Job.setLockedUntil None (job.Job.setStatus job.Dead jb)),
              None)
        else (t, jb, Some ErrJobLost)
    | None => (t, jb, Some ErrJobLost)
    end.
Proof. intros Hlive. unfold Kill. run_transition Hlive isLive. Qed.

End Transitions.

Section TransitionContracts.

Import gqs sql.

Implicit Types (t : table) (r : jobModel) (jb : job.Job.t) (env : Env).

(** C2. [Return] succeeds exactly when the stored row of the job's
    identifier is in [Processing]. It then writes that row and no other:
    status [Pending], lock cleared, next run at [now + backoff], update
    time [now]. Otherwise it returns [ErrJobLost] and the store is as it
    was. *)
Theorem Return_spec env jb backoff t :
  fail env = None ->
  ((Return env jb backoff t).2 = None <->
   exists r, t !! jobId jb = Some r /\ Status r = job.Processing) /\
  (forall r,
     t !! jobId jb = Some r -> Status r = job.Processing ->
     exists r',
       (Return env jb backoff t).1.1 = <[jobId jb := r']> t
       /\ Status r' = job.Pending
       /\ LockedUntil r' = None
       /\ NextRunAt r' = now env + backoff
       /\ UpdatedAt r' = now env
       /\ CreatedAt r' = CreatedAt r
       /\ Attempts r' = Attempts r
       /\ Metadata r' = Metadata r
       /\ Payload r' = Payload r) /\
  ((Return env jb backoff t).2 <> None ->
   (Return env jb backoff t).2 = Some ErrJobLost
   /\ (Return env jb backoff t).1.1 = t).
Proof.
  intros Hlive. rewrite (Return_run _ _ _ _ Hlive). unfold isProcessing.
  destruct (t !! jobId jb) as [r |] eqn:Hrow.
  - destruct (Z.eqb_spec (Status r) job.Processing) as [Hst | Hst]; simpl.
    + split; [split; [eauto | done] |]. split; [| done].
      intros r0 [= <-] _. exists (returned (now env) backoff r).
      repeat split.
    + split; [split; [done |] |].
      * intros (r0 & [= <-] & Hst'). done.
      * split; [| done]. intros r0 [= <-] Hst'. done.
  - simpl. split; [split; [done |] |].
    + intros (r0 & Hr0 & _). done.
    + split; [| done]. intros r0 Hr0. done.
Qed.

Lemma Return_spec_witness :
  (Return (examples.at_ 120) examples.claimedJob 30 examples.claimed).2 = None.
Proof.
  pose proof (Return_spec (examples.at_ 120) examples.claimedJob 30
                examples.claimed eq_refl) as (Hiff & _).
  apply Hiff. eexists. split; [vm_compute; reflexivity | reflexivity].
Defined.

(** C10. Each of [ExtendLock], [Complete], [Return] and [Kill], when it
    succeeds, has written the post-transition values into the caller's
    snapshot: status [Processing], [Done], [Pending], [Dead] in turn, the
    lock [now + lock] for [ExtendLock] and none for the others, the update
    time [now], and the next run time [now + backoff] for [Return], as it
    was for the others; the message, creation time and attempt count are
    as they were. When it returns an error, the snapshot is as it was. *)
Theorem transitions_refresh_snapshot env jb lock backoff t :
  refreshes jb job.Processing (Some (now env + lock)) (now env)
    (job.Job.NextRunAt jb) (ExtendLock env jb lock t)
  /\ refreshes jb job.Done None (now env) (job.Job.NextRunAt jb)
       (Complete env jb t)
  /\ refreshes jb job.Pending None (now env) (now env + backoff)
       (Return env jb backoff t)
  /\ refreshes jb job.Dead None (now env) (job.Job.NextRunAt jb)
       (Kill env jb t).
Proof.
  destruct (fail env) as [e |] eqn:Hfail.
  - unfold ExtendLock, Complete, Return, Kill.
    rewrite !(Exec_fail _ _ _ _ Hfail). repeat split; done.
  - unfold refreshes.
    rewrite (ExtendLock_run _ _ _ _ Hfail), (Complete_run _ _ _ Hfail),
      (Return_run _ _ _ _ Hfail), (Kill_run _ _ _ Hfail).
    destruct (t !! jobId jb) as [r |]; [| repeat split; done].
    destruct (isProcessing r), (isLive r); cbn [fst snd];
      repeat split; done.
Qed.

Lemma transitions_refresh_snapshot_witness :
  job.Job.Status
    (Complete (examples.at_ 120) examples.claimedJob examples.claimed).1.2
  = job.Done
  /\ job.Job.UpdatedAt
       (Complete (examples.at_ 120) examples.claimedJob examples.claimed).1.2
     = 120
  /\ job.Job.Attempts
       (Complete (examples.at_ 120) examples.claimedJob examples.claimed).1.2
     = 1.
Proof.
  pose proof (transitions_refresh_snapshot (examples.at_ 120)
                examples.claimedJob 50 30 examples.claimed)
    as (_ & (Hok & _) & _).
  destruct (Hok eq_refl) as ((Hst & _ & Hupd & _) & (_ & _ & Hatt)).
  split; [exact Hst |]. split; [exact Hupd |].
  rewrite Hatt. reflexivity.
Defined.

End TransitionContracts.

(** ** Cleaner *)

Section Cleaner.

Import gqs sql.

Implicit Types (t : table) (r : jobModel) (env : Env).

Lemma size_matching cond t :
  size t
  = (size (matching cond t)
     + size (filter (fun kv => cond kv.1 kv.2 = false) t))%nat.
Proof.
  unfold matching.
  rewrite <- (map_filter_union_complement
                (fun kv => cond kv.1 kv.2 = true) t) at 1.
  rewrite map_size_disj_union by apply map_disjoint_filter_complement.
  f_equal. f_equal. apply map_filter_ext. intros i x _. simpl.
  by destruct (cond i x).
Qed.

Lemma cleanTarget_reflect status before r :
  status ∈ [job.Unknown; job.Done; job.Dead] ->
  cleanStatus status r && cleanBefore before r = true
  <-> cleanTarget status before r.
Proof.
  intros Hstatus. unfold cleanStatus, cleanBefore, cleanTarget.
  rewrite andb_true_iff.
  assert (Hb : match before with Some b => UpdatedAt r <=? b | None => true end
               = true
               <-> forall b, before = Some b -> UpdatedAt r <= b).
  { destruct before as [b |].
    - rewrite Z.leb_le. split; [by intros H b' [= <-] | eauto].
    - split; [by intros _ b' | done]. }
  rewrite Hb. clear Hb.
  destruct (decide (status = job.Unknown)) as [-> | Hne].
  - simpl. rewrite orb_true_iff, !Z.eqb_eq. done.
  - apply Z.eqb_neq in Hne as Hneb. unfold job.Unknown in Hneb.
    rewrite Hneb. simpl. rewrite Z.eqb_eq. done.
Qed.

(** C6. [Clean] returns [ErrBadStatus] exactly when the status is none of
    [Unknown], [Done], [Dead], and then deletes nothing. Otherwise the rows
    left are the rows that are not targets (rows in the given status, or in
    [Done] or [Dead] for [Unknown], last updated by the cut-off when there
    is one), and the count returned is the number of rows deleted. *)
Theorem Clean_spec env status before t :
  fail env = None ->
  ((Clean env status before t).2 = Some ErrBadStatus
   <-> status ∉ [job.Unknown; job.Done; job.Dead]) /\
  (status ∉ [job.Unknown; job.Done; job.Dead] ->
   Clean env status before t = (t, 0, Some ErrBadStatus)) /\
  (status ∈ [job.Unknown; job.Done; job.Dead] ->
   (Clean env status before t).2 = None
   /\ (forall id r,
         (Clean env status before t).1.1 !! id = Some r
         <-> t !! id = Some r /\ ~ cleanTarget status before r)
   /\ (Clean env status before t).1.2
      = Z.of_nat (size t) - Z.of_nat (size (Clean env status before t).1.1)).
Proof.
  intros Hlive.
  assert (Hguard : negb (status =? 0) && negb (status =? job.Dead)
                   && negb (status =? job.Done) = true
                   <-> status ∉ [job.Unknown; job.Done; job.Dead]).
  { rewrite !andb_true_iff, !negb_true_iff, !Z.eqb_neq.
    rewrite !not_elem_of_cons. unfold job.Unknown.
    pose proof (not_elem_of_nil status). tauto. }
  unfold Clean. rewrite (Exec_live _ _ _ Hlive). cbn [fst snd deleteRows].
  destruct (negb (status =? 0) && negb (status =? job.Dead)
            && negb (status =? job.Done)) eqn:Hg.
  - assert (Hbad : status ∉ [job.Unknown; job.Done; job.Dead])
      by by apply Hguard.
    split; [done |]. split; [done |]. intros Hin. done.
  - assert (Hin : status ∈ [job.Unknown; job.Done; job.Dead]).
    { destruct (decide (status ∈ [job.Unknown; job.Done; job.Dead]));
        [done |]. apply Hguard in n. congruence. }
    split; [split; [done | intros Hbad; done] |].
    split; [intros Hbad; done |]. intros _. cbn [fst snd].
    split; [done |]. split.
    + intros id r. rewrite map_lookup_filter_Some. simpl.
      rewrite <- (cleanTarget_reflect _ _ _ Hin).
      destruct (cleanStatus status r && cleanBefore before r);
        intuition congruence.
    + unfold getAffected, affected. simpl.
      rewrite (size_matching
                 (fun _ r => cleanStatus status r && cleanBefore before r) t).
      lia.
Qed.

Lemma Clean_spec_witness :
  (Clean (examples.at_ 130) job.Pending None examples.claimed).2
  = Some ErrBadStatus.
Proof.
  pose proof (Clean_spec (examples.at_ 130) job.Pending None examples.claimed
                eq_refl) as (Hiff & _).
  apply Hiff. intros Hin.
  repeat (apply elem_of_cons in Hin as [Heq | Hin]; [discriminate Heq |]).
  by apply elem_of_nil in Hin.
Defined.

End Cleaner.

(** ** The lock column and the status *)

Section Invariant.

Import gqs sql.
Context `{QB : QueryBuilder}.

Implicit Types (t : table) (r : jobModel) (env : Env).

Lemma updateRows_allRows (P : jobModel -> Prop) set cond t :
  allRows P t ->
  (forall id r, cond id r = true -> P (set r)) ->
  allRows P (updateRows set cond t).1.
Proof.
  intros Ht Hset id r'. rewrite lookup_updateRows.
  destruct (t !! id) as [r |] eqn:Hrow; [| done].
  simpl. intros [= <-]. destruct (cond id r) eqn:Hc; eauto.
Qed.

Lemma Exec_allRows {A : Type} (P : jobModel -> Prop) env
    (stmt : table -> table * A) t :
  allRows P t -> allRows P (stmt t).1 -> allRows P (Exec env stmt t).1.
Proof.
  intros Ht Hstmt. unfold Exec.
  destruct (fail env); [done |]. by destruct (stmt t).
Qed.

Lemma lockedIffProcessing_claim now lockUntil r :
  lockedIffProcessing (claim now lockUntil r).
Proof. split; [done | by eexists]. Qed.

Lemma lockedIffProcessing_extended now lock r :
  Status r = job.Processing -> lockedIffProcessing (extended now lock r).
Proof. intros Hst. split; [done | by eexists]. Qed.

Lemma lockedIffProcessing_unlocked now r :
  lockedIffProcessing (completed now r)
  /\ lockedIffProcessing (killed now r)
  /\ forall backoff, lockedIffProcessing (returned now backoff r).
Proof.
  repeat split; try (by intros [? [=]]); intros [=].
Qed.

Lemma Push_allRows env msg delay t :
  allRows lockedIffProcessing t ->
  allRows lockedIffProcessing (Push env msg delay t).1.
Proof.
  intros Ht. unfold Push, Exec, insertRow.
  destruct (fail env); [done |].
  destruct (t !! message.Id msg) eqn:Hrow; [done |]. simpl.
  intros id r. destruct (decide (id = message.Id msg)) as [-> | Hne].
  - rewrite lookup_insert_eq. intros [= <-].
    split; [by intros [? [=]] | intros [=]].
  - rewrite lookup_insert_ne by done. apply Ht.
Qed.

Lemma Pull_allRows env batch lock t :
  allRows lockedIffProcessing t ->
  allRows lockedIffProcessing (Pull env batch lock t).1.
Proof.
  intros Ht. unfold Pull. apply Exec_allRows; [done |].
  apply updateRows_allRows; [done |].
  intros id r _. apply lockedIffProcessing_claim.
Qed.

Ltac transition_allRows Ht :=
  match goal with
  | |- allRows _ (match Exec ?env ?stmt ?t with _ => _ end).1.1 =>
      assert (Hstmt : allRows lockedIffProcessing (Exec env stmt t).1);
      [ apply Exec_allRows; [exact Ht |];
        apply updateRows_allRows; [exact Ht |]
      | destruct (Exec env stmt t) as [t' [res | err]];
        [destruct (isAffected res) |]; exact Hstmt ]
  end.

Lemma ExtendLock_allRows env jb lock t :
  allRows lockedIffProcessing t ->
  allRows lockedIffProcessing (ExtendLock env jb lock t).1.1.
Proof.
  intros Ht. unfold ExtendLock. transition_allRows Ht.
  intros id r [_ Hst%Z.eqb_eq]%andb_true_iff.
  by apply lockedIffProcessing_extended.
Qed.

Lemma Complete_allRows env jb t :
  allRows lockedIffProcessing t ->
  allRows lockedIffProcessing (Complete env jb t).1.1.
Proof.
  intros Ht. unfold Complete. transition_allRows Ht.
  intros id r _. apply lockedIffProcessing_unlocked.
Qed.

Lemma Return_allRows env jb backoff t :
  allRows lockedIffProcessing t ->
  allRows lockedIffProcessing (Return env jb backoff t).1.1.
Proof.
  intros Ht. unfold Return. transition_allRows Ht.
  intros id r _. apply lockedIffProcessing_unlocked.
Qed.

Lemma Kill_allRows env jb t :
  allRows lockedIffProcessing t ->
  allRows lockedIffProcessing (Kill env jb t).1.1.
Proof.
  intros Ht. unfold Kill. transition_allRows Ht.
  intros id r _. apply lockedIffProcessing_unlocked.
Qed.

Lemma Clean_allRows env status before t :
  allRows lockedIffProcessing t ->
  allRows lockedIffProcessing (Clean env status before t).1.1.
Proof.
  intros Ht. unfold Clean.
  destruct (negb (status =? 0) && negb (status =? job.Dead)
            && negb (status =? job.Done)); [done |].
  match goal with
  | |- allRows _ (match Exec ?env ?stmt ?t with _ => _ end).1.1 =>
      assert (Hstmt : allRows lockedIffProcessing (Exec env stmt t).1);
      [ apply Exec_allRows; [exact Ht |]
      | by destruct (Exec env stmt t) as [t' [res | err]] ]
  end.
  intros id r [Hrow _]%map_lookup_filter_Some. by apply (Ht id).
Qed.

Lemma step_allRows t t' :
  step t t' ->
  allRows lockedIffProcessing t -> allRows lockedIffProcessing t'.
Proof.
  destruct 1; eauto using Push_allRows, Pull_allRows, ExtendLock_allRows,
    Complete_allRows, Return_allRows, Kill_allRows, Clean_allRows.
Qed.

(** C3. In every table that [Push], [Pull], [ExtendLock], [Complete],
    [Return] and [Kill] (and [Clean]) build from the empty one, by any
    callers in any order, the lock column of a row is set if and only if
    the row is in [Processing]. *)
Theorem locked_iff_processing t :
  reachable t ->
  forall id r, t !! id = Some r ->
    is_Some (LockedUntil r) <-> Status r = job.Processing.
Proof.
  induction 1 as [| t t' _ IH Hstep].
  - intros id r. by rewrite lookup_empty.
  - by apply (step_allRows t t').
Qed.

End Invariant.

Lemma locked_iff_processing_witness :
  is_Some (sql.LockedUntil
             (sql.claim 110 160 (sql.fromMessage 100 (examples.msg 7) 0)))
  <-> sql.Status (sql.claim 110 160 (sql.fromMessage 100 (examples.msg 7) 0))
      = job.Processing.
Proof.
  apply (@locked_iff_processing examples.builder examples.claimed) with 7.
  - unfold examples.claimed, examples.pushed.
    eapply sql.reachable_step; [| apply sql.step_Pull].
    eapply sql.reachable_step; [apply sql.reachable_empty |].
    apply sql.step_Push.
  - vm_compute. reflexivity.
Defined.

(** ** The claim query *)

Section Pull.

Import gqs sql.
Context `{QB : QueryBuilder}.

Implicit Types (t : table) (r : jobModel) (env : Env)
  (kv : message.uuid * jobModel).

#[local] Instance byNextRunAt_trans : Transitive byNextRunAt.
Proof. intros a b c. unfold byNextRunAt. lia. Qed.

#[local] Instance byNextRunAt_total : Total byNextRunAt.
Proof. intros a b. unfold byNextRunAt. lia. Qed.

Lemma eligible_Eligible now r : eligible now r = true <-> Eligible now r.
Proof.
  unfold eligible, Eligible, nullLt.
  rewrite andb_true_iff, orb_true_iff, andb_true_iff, Z.leb_le, !Z.eqb_eq.
  destruct (LockedUntil r) as [l |].
  - rewrite Z.ltb_lt. split.
    + intros [Hrun [Hp | [Hp Hl]]]; eauto 6.
    + intros [Hrun [Hp | [Hp (l' & [= <-] & Hl)]]]; eauto.
  - split.
    + intros [Hrun [Hp | [_ [=]]]]. eauto.
    + intros [Hrun [Hp | [_ (l' & [=] & _)]]]. eauto.
Qed.

Lemma elem_of_due now t id r :
  (id, r) ∈ due now t <-> t !! id = Some r /\ Eligible now r.
Proof.
  unfold due. rewrite merge_sort_Permutation, list_elem_of_filter.
  rewrite elem_of_map_to_list. simpl. rewrite eligible_Eligible. tauto.
Qed.

Lemma NoDup_due now t : NoDup (due now t).
Proof.
  unfold due. rewrite merge_sort_Permutation.
  eapply sublist_NoDup; [apply NoDup_map_to_list | apply sublist_filter].
Qed.

Lemma selected_take now batch t :
  0 < batch -> selected now batch t = take (Z.to_nat batch) (due now t).
Proof. intros Hb. unfold selected. by rewrite Limit_positive. Qed.

Lemma selected_due now batch t :
  0 < batch ->
  due now t
  = selected now batch t ++ drop (Z.to_nat batch) (due now t).
Proof. intros Hb. by rewrite selected_take, take_drop. Qed.

Lemma elem_of_selected now batch t id r :
  0 < batch ->
  (id, r) ∈ selected now batch t ->
  t !! id = Some r /\ Eligible now r.
Proof.
  intros Hb Hin. apply elem_of_due.
  rewrite (selected_due now batch t Hb). apply elem_of_app. by left.
Qed.

Lemma NoDup_selected now batch t :
  0 < batch ->
  NoDup (selected now batch t) /\ NoDup (selected now batch t).*1.
Proof.
  intros Hb.
  assert (Hnd : NoDup (selected now batch t)).
  { rewrite selected_take by done.
    eapply sublist_NoDup; [apply NoDup_due | apply sublist_take]. }
  split; [done |]. apply NoDup_fmap_fst; [| done].
  intros id r1 r2 [H1 _]%elem_of_selected [H2 _]%elem_of_selected; try done.
  congruence.
Qed.

Lemma elem_of_subQuery now batch t id :
  0 < batch ->
  id ∈ subQuery now batch t <->
  exists r, (id, r) ∈ selected now batch t.
Proof.
  intros Hb. unfold subQuery. rewrite list_elem_of_fmap. split.
  - intros ([id' r] & -> & Hin). by exists r.
  - intros (r & Hin). by exists (id, r).
Qed.

(** The rows that the [UPDATE] of [Pull] matches are the selected ones. *)
Lemma matching_subQuery now batch t :
  0 < batch ->
  map_to_list
    (matching (fun id _ => bool_decide (id ∈ subQuery now batch t)) t)
  ≡ₚ selected now batch t.
Proof.
  intros Hb. apply NoDup_Permutation.
  - apply NoDup_map_to_list.
  - by apply NoDup_selected.
  - intros [id r]. rewrite elem_of_map_to_list, lookup_matching.
    rewrite bool_decide_eq_true, elem_of_subQuery by done. split.
    + intros (Hrow & r' & Hin).
      destruct (elem_of_selected _ _ _ _ _ Hb Hin) as [Hrow' _]. congruence.
    + intros Hin. split; [by eapply elem_of_selected | by exists r].
Qed.

(** C1, as the code has it. For a positive batch size, [Pull] selects at
    most [batch] rows,
    each eligible ([NextRunAt <= now] and either [Pending], or [Processing]
    with [LockedUntil < now]), in ascending order of [NextRunAt] and the
    due-first ones; it writes exactly those rows (status [Processing],
    attempts plus one, lock until [now + lock], update time [now]), and
    returns their snapshots as written. With no eligible row it returns
    the empty list, no error, and writes nothing. *)
Theorem Pull_spec env batch lock t :
  fail env = None ->
  0 < batch ->
  let sel := selected (now env) batch t in
  let written := claim (now env) (now env + lock) in
  Z.of_nat (length sel) <= batch
  /\ NoDup sel.*1
  /\ (forall id r, (id, r) ∈ sel -> t !! id = Some r /\ Eligible (now env) r)
  /\ StronglySorted byNextRunAt sel
  /\ (forall id r,
        t !! id = Some r -> Eligible (now env) r -> id ∉ sel.*1 ->
        Z.of_nat (length sel) = batch
        /\ forall kv, kv ∈ sel -> NextRunAt kv.2 <= NextRunAt r)
  /\ (forall r,
        Status (written r) = job.Processing
        /\ Attempts (written r) = Attempts r + 1
        /\ LockedUntil (written r) = Some (now env + lock)
        /\ UpdatedAt (written r) = now env
        /\ NextRunAt (written r) = NextRunAt r
        /\ CreatedAt (written r) = CreatedAt r
        /\ Metadata (written r) = Metadata r
        /\ Payload (written r) = Payload r)
  /\ (forall id,
        (Pull env batch lock t).1 !! id
        = if decide (id ∈ sel.*1) then written <$> t !! id else t !! id)
  /\ exists jobs,
       (Pull env batch lock t).2 = inl jobs
       /\ jobs ≡ₚ (fun kv => toJob kv.1 (written kv.2)) <$> sel
       /\ Z.of_nat (length jobs) <= batch
       /\ ((forall id r, t !! id = Some r -> ~ Eligible (now env) r) ->
           jobs = [] /\ (Pull env batch lock t).1 = t).
Proof.
  intros Hlive Hb sel written.
  assert (Hsorted : StronglySorted byNextRunAt (due (now env) t))
    by (apply StronglySorted_merge_sort; apply _).
  pose proof (selected_due (now env) batch t Hb) as Hsplit.
  fold sel in Hsplit.
  assert (Hlookup : forall id,
            (Pull env batch lock t).1 !! id
            = if decide (id ∈ sel.*1) then written <$> t !! id else t !! id).
  { intros id. unfold Pull. rewrite (Exec_live _ _ _ Hlive).
    cbn [fst updateReturning]. rewrite lookup_updateRows.
    unfold subQuery. fold sel. fold written.
    destruct (decide (id ∈ sel.*1)) as [Hin | Hout].
    - rewrite bool_decide_eq_true_2 by done. done.
    - rewrite bool_decide_eq_false_2 by done. by destruct (t !! id). }
  assert (Hlen : Z.of_nat (length sel) <= batch).
  { subst sel. rewrite selected_take by done. rewrite length_take. lia. }
  split; [| split; [| split; [| split; [| split; [| split; [| split]]]]]].
  - exact Hlen.
  - by apply NoDup_selected.
  - intros id r. by apply elem_of_selected.
  - rewrite Hsplit in Hsorted. by apply StronglySorted_app_1_l in Hsorted.
  - intros id r Hrow Helig Hout.
    assert (Hdue : (id, r) ∈ due (now env) t) by by apply elem_of_due.
    rewrite Hsplit in Hdue. apply elem_of_app in Hdue as [Hin | Hrest].
    { exfalso. apply Hout. by apply (list_elem_of_fmap_2 fst) in Hin. }
    split.
    + subst sel. rewrite selected_take by done.
      apply list_elem_of_lookup in Hrest as [i Hi].
      apply lookup_lt_Some in Hi. rewrite length_drop in Hi.
      rewrite length_take_le by lia. lia.
    + intros kv Hkv. rewrite Hsplit in Hsorted.
      apply (StronglySorted_app_1_elem_of _ _ _ kv (id, r) Hsorted Hkv Hrest).
  - intros r. repeat split.
  - exact Hlookup.
  - unfold Pull at 1. rewrite (Exec_live _ _ _ Hlive).
    cbn [snd updateReturning]. eexists. split; [reflexivity |].
    split; [| split].
    + fold written. by rewrite matching_subQuery.
    + rewrite length_fmap, matching_subQuery by done. exact Hlen.
    + intros Hnone.
      assert (Hsel : sel = []).
      { destruct sel as [| [id r] sel'] eqn:Hs; [done |].
        assert (Hin : (id, r) ∈ selected (now env) batch t)
          by (fold sel; rewrite Hs; apply list_elem_of_here).
        apply elem_of_selected in Hin as [Hrow Helig]; [| done].
        by destruct (Hnone _ _ Hrow). }
      split.
      * apply Permutation_nil_r. rewrite matching_subQuery by done.
        fold sel. by rewrite Hsel.
      * apply map_eq. intros id. rewrite Hlookup, Hsel.
        destruct (decide (id ∈ ([] : list (message.uuid * jobModel)).*1))
          as [Hin | _]; [| done].
        by apply elem_of_nil in Hin.
Qed.

End Pull.

Lemma Pull_spec_witness :
  (@sql.Pull examples.builder (examples.at_ 110) 1 50 examples.pushed).1 !! 7
  = Some (sql.claim 110 160 (sql.fromMessage 100 (examples.msg 7) 0)).
Proof.
  pose proof (@Pull_spec examples.builder (examples.at_ 110) 1 50
                examples.pushed eq_refl eq_refl)
    as (_ & _ & _ & _ & _ & _ & Hrow & _).
  rewrite Hrow. vm_compute. reflexivity.
Defined.

(** C1, as stated, fails for a batch size that is not positive: [Pull]
    hands [batch] to [Limit] unchecked. A worker made from the zero
    [WorkerConfig] polls with the batch size 0; the sub-query then bounds
    nothing, and on a store that holds two due rows [Pull] claims and
    returns both, which is more than [batch] rows. *)
Lemma Pull_zero_batch_claims_all :
  gqs.batchSize (gqs.NewWorker examples.zeroConfig) = 0
  /\ match
       (@sql.Pull examples.builder (examples.at_ 110) 0 50
          examples.pushedTwo).2
     with
     | inl jobs =>
         length jobs = 2%nat
         /\ 0 < Z.of_nat (length jobs)
         /\ Forall (fun jb => job.Job.Status jb = job.Processing) jobs
     | inr _ => False
     end
  /\ sql.Status
       <$> (@sql.Pull examples.builder (examples.at_ 110) 0 50
              examples.pushedTwo).1 !! 7
     = Some job.Processing
  /\ sql.Status
       <$> (@sql.Pull examples.builder (examples.at_ 110) 0 50
              examples.pushedTwo).1 !! 8
     = Some job.Processing.
Proof.
  split; [reflexivity |]. split; [| split; vm_compute; reflexivity].
  vm_compute. split; [reflexivity |]. split; [reflexivity |].
  repeat constructor.
Qed.

(** ** Handling one job *)

Section Handle.

Import gqs.
Context `{F : Float64} {S : Type} `{P : !Puller S}.

Implicit Types (w : Worker) (sched : list event) (st : S) (jb : job.Job.t).

Lemma transitions_app (tr1 tr2 : list effect) :
  transitions (tr1 ++ tr2) = transitions tr1 ++ transitions tr2.
Proof. apply List.filter_app. Qed.

(** Until it returns, [handleOrExtend] cancels the job's context and asks
    the store for no transition. *)
Lemma handleOrExtend_extendFails w sched st jb e st1 jb1 :
  extendFails w sched st jb e st1 jb1 ->
  exists tr,
    handleOrExtend w sched st jb = Some (st1, jb1, tr, Some e)
    /\ Cancel ∈ tr /\ transitions tr = [].
Proof.
  induction 1 as [env rest st jb st' jb' e Hext
                 | env rest st jb st1 jb1 e st' jb' Hext _ IH]; simpl.
  - rewrite Hext. eexists. split; [reflexivity |].
    split; [set_solver | reflexivity].
  - rewrite Hext. destruct IH as (tr & -> & Hc & Htr).
    eexists. split; [reflexivity |]. split; [set_solver | exact Htr].
Qed.

Lemma handleOrExtend_handlerEnds w sched st jb res st1 jb1 :
  handlerEnds w sched st jb res st1 jb1 ->
  exists tr,
    handleOrExtend w sched st jb = Some (st1, jb1, tr, res)
    /\ Cancel ∈ tr /\ transitions tr = [].
Proof.
  induction 1 as [res rest st jb
                 | env rest st jb st1 jb1 res st' jb' Hext _ IH]; simpl.
  - eexists. split; [reflexivity |]. split; [set_solver | reflexivity].
  - rewrite Hext. destruct IH as (tr & -> & Hc & Htr).
    eexists. split; [reflexivity |]. split; [set_solver | exact Htr].
Qed.

(** What [handle] does with an error [e] that does not match
    [ErrLockLost]: one transition, chosen by the backoff policy. *)
Lemma handle_error w sched env rnd st jb e st1 jb1 tr :
  handleOrExtend w sched st jb = Some (st1, jb1, tr, Some e) ->
  errorsIs e ErrLockLost = false ->
  transitions tr = [] ->
  exists out call tr',
    handle w sched env rnd st jb = Some (out.1.1, out.1.2, tr')
    /\ (forall x, x ∈ tr -> x ∈ tr')
    /\ transitions tr' = [call]
    /\ ((next (backoff w) (job.Job.Attempts jb1) rnd).2 = true ->
        call = CallReturn (jobId jb1)
                 (next (backoff w) (job.Job.Attempts jb1) rnd).1
        /\ out = Return env jb1
                   (next (backoff w) (job.Job.Attempts jb1) rnd).1 st1)
    /\ ((next (backoff w) (job.Job.Attempts jb1) rnd).2 = false ->
        call = CallKill (jobId jb1) /\ out = Kill env jb1 st1).
Proof.
  intros Hloop Hnot Htr. unfold handle. rewrite Hloop, Hnot.
  destruct (next (backoff w) (job.Job.Attempts jb1) rnd) as [delay ok].
  destruct ok; cbn [negb fst snd].
  - destruct (Return env jb1 delay st1) as [[st2 jb2] err] eqn:Hout.
    exists (st2, jb2, err), (CallReturn (jobId jb1) delay). eexists.
    split; [reflexivity |]. split; [set_solver |].
    split; [| split; [done | done]].
    rewrite transitions_app, Htr. by destruct err.
  - destruct (Kill env jb1 st1) as [[st2 jb2] err] eqn:Hout.
    exists (st2, jb2, err), (CallKill (jobId jb1)). eexists.
    split; [reflexivity |]. split; [set_solver |].
    split; [| split; [done | done]].
    rewrite transitions_app, Htr. by destruct err.
Qed.

(** C5, as the code has it. When a renewal of the lease fails, the worker
    cancels the job's context. If the error matches [ErrLockLost], it
    abandons the job: no transition is asked of the store, which is left
    as the failed renewal left it. Any other renewal error is handled as
    a handler failure is: one transition follows, [Return] with the
    backoff delay, or [Kill] when the retries are exhausted. *)
Theorem extension_failure w sched env rnd st jb e st1 jb1 :
  extendFails w sched st jb e st1 jb1 ->
  (errorsIs e ErrLockLost = true ->
   exists tr,
     handle w sched env rnd st jb = Some (st1, jb1, tr)
     /\ Cancel ∈ tr /\ transitions tr = []) /\
  (errorsIs e ErrLockLost = false ->
   exists out call tr,
     handle w sched env rnd st jb = Some (out.1.1, out.1.2, tr)
     /\ Cancel ∈ tr
     /\ transitions tr = [call]
     /\ ((next (backoff w) (job.Job.Attempts jb1) rnd).2 = true ->
         call = CallReturn (jobId jb1)
                  (next (backoff w) (job.Job.Attempts jb1) rnd).1
         /\ out = Return env jb1
                    (next (backoff w) (job.Job.Attempts jb1) rnd).1 st1)
     /\ ((next (backoff w) (job.Job.Attempts jb1) rnd).2 = false ->
         call = CallKill (jobId jb1) /\ out = Kill env jb1 st1)).
Proof.
  intros Hfails.
  destruct (handleOrExtend_extendFails _ _ _ _ _ _ _ Hfails)
    as (tr & Hloop & Hcancel & Htr).
  split.
  - intros Hlost. exists (tr ++ [Log "job lock lost"]).
    unfold handle. rewrite Hloop, Hlost.
    split; [reflexivity |]. split; [set_solver |].
    by rewrite transitions_app, Htr.
  - intros Hnot.
    destruct (handle_error w sched env rnd st jb e st1 jb1 tr Hloop Hnot Htr)
      as (out & call & tr' & Hrun & Hsub & Hcalls & Hret & Hkill).
    exists out, call, tr'. eauto 10.
Qed.

(** C4, as the code has it: the result [ErrKill] of a handler is an error
    like any other. With retries left, the job is returned to [Pending]
    with the backoff delay; [Kill] is not called. *)
Theorem Kill_sentinel_is_retried w sched env rnd st jb st1 jb1 :
  handlerEnds w sched st jb (Some ErrKill) st1 jb1 ->
  (next (backoff w) (job.Job.Attempts jb1) rnd).2 = true ->
  exists tr,
    handle w sched env rnd st jb
    = Some ((Return env jb1
               (next (backoff w) (job.Job.Attempts jb1) rnd).1 st1).1.1,
            (Return env jb1
               (next (backoff w) (job.Job.Attempts jb1) rnd).1 st1).1.2,
            tr)
    /\ transitions tr
       = [CallReturn (jobId jb1)
            (next (backoff w) (job.Job.Attempts jb1) rnd).1].
Proof.
  intros Hends Hok.
  destruct (handleOrExtend_handlerEnds _ _ _ _ _ _ _ Hends)
    as (tr & Hloop & _ & Htr).
  destruct (handle_error w sched env rnd st jb ErrKill st1 jb1 tr Hloop
              eq_refl Htr)
    as (out & call & tr' & Hrun & _ & Hcalls & Hret & _).
  destruct (Hret Hok) as [-> ->]. by exists tr'.
Qed.

End Handle.

Lemma extension_failure_witness :
  exists tr,
    examples.handleClaimed examples.finished [gqs.Tick (examples.at_ 117)]
    = Some (examples.finished, examples.claimedJob, tr)
    /\ gqs.transitions tr = [].
Proof.
  assert (Hfails :
    @gqs.extendFails examples.exactFloat sql.table
      (@sql.puller examples.builder) examples.testWorker
      [gqs.Tick (examples.at_ 117)]
      examples.finished examples.claimedJob gqs.ErrLockLost
      examples.finished examples.claimedJob).
  { apply gqs.extendFails_now. vm_compute. reflexivity. }
  pose proof (extension_failure examples.testWorker _ (examples.at_ 120)
                (inject_Z 0) _ _ _ _ _ Hfails) as [Hlost _].
  destruct (Hlost eq_refl) as (tr & Hrun & _ & Htr). by exists tr.
Defined.

(** C5, as stated, fails: a renewal that fails with an error other than
    [ErrLockLost] is followed by a transition, here a [Return] that puts
    the row back to [Pending]. *)
Lemma extension_error_then_Return :
  exists st jb,
    examples.handleClaimed examples.claimed
      [gqs.Tick (examples.broken 115)]
    = Some (st, jb,
            [gqs.CallExtendLock 7 200000000; gqs.Cancel; gqs.Cancel;
             gqs.CallReturn 7 0])
    /\ sql.Status <$> st !! 7 = Some job.Pending.
Proof. do 2 eexists. split; vm_compute; reflexivity. Qed.

Lemma Kill_sentinel_is_retried_witness :
  exists tr,
    examples.handleClaimed examples.claimed
      [gqs.Tick (examples.at_ 115); gqs.Finished (Some gqs.ErrKill)]
    = Some ((sql.Return (examples.at_ 120)
               (sql.ExtendLock (examples.at_ 115) examples.claimedJob
                  200000000 examples.claimed).1.2
               0
               (sql.ExtendLock (examples.at_ 115) examples.claimedJob
                  200000000 examples.claimed).1.1).1,
            tr)
    /\ gqs.transitions tr = [gqs.CallReturn 7 0].
Proof.
  assert (Hends :
    @gqs.handlerEnds examples.exactFloat sql.table
      (@sql.puller examples.builder) examples.testWorker
      [gqs.Tick (examples.at_ 115); gqs.Finished (Some gqs.ErrKill)]
      examples.claimed examples.claimedJob (Some gqs.ErrKill)
      (sql.ExtendLock (examples.at_ 115) examples.claimedJob
         200000000 examples.claimed).1.1
      (sql.ExtendLock (examples.at_ 115) examples.claimedJob
         200000000 examples.claimed).1.2).
  { eapply gqs.handlerEnds_later; [vm_compute; reflexivity |].
    apply gqs.handlerEnds_now. }
  destruct (Kill_sentinel_is_retried examples.testWorker _ (examples.at_ 120)
              (inject_Z 0) _ _ _ _ Hends eq_refl) as (tr & Hrun & Htr).
  exists tr. split; [| exact Htr].
  unfold examples.handleClaimed. rewrite Hrun. vm_compute. reflexivity.
Defined.

(** The worker test of the kill shortcut, on the store: the handler
    returns [ErrKill] and the row ends [Pending], not [Dead]. *)
Lemma Kill_sentinel_leaves_Pending :
  exists st jb,
    examples.handleClaimed examples.claimed
      [gqs.Finished (Some gqs.ErrKill)]
    = Some (st, jb, [gqs.Cancel; gqs.CallReturn 7 0])
    /\ sql.Status <$> st !! 7 = Some job.Pending.
Proof. do 2 eexists. split; vm_compute; reflexivity. Qed.

(** * Further properties of the code *)

(** ** Status names *)

Section StatusNames.

Import job.

(** X1. A string that [ParseStatus] accepts is the canonical name of the
    status it yields: printing the parsed status gives the string back. *)
Theorem ParseStatus_inverse (str : string) (s : Status) :
  ParseStatus str = inl s -> String s = str.
Proof.
  unfold ParseStatus, statusFromString.
  repeat match goal with
         | |- context [String.eqb str ?c] =>
             destruct (String.eqb_spec str c) as [-> | _];
             [by intros [= <-] |]
         end.
  discriminate.
Qed.

Lemma ParseStatus_inverse_witness : String Dead = "Dead".
Proof. apply (ParseStatus_inverse "Dead" Dead). reflexivity. Defined.

Lemma statusToString_cases (s : Status) :
  (s = Pending /\ statusToString s = "Pending")
  \/ (s = Processing /\ statusToString s = "Processing")
  \/ (s = Done /\ statusToString s = "Done")
  \/ (s = Dead /\ statusToString s = "Dead")
  \/ ((s ∉ [Pending; Processing; Done; Dead])
      /\ statusToString s = "Unknown").
Proof.
  unfold statusToString.
  destruct (Z.eqb_spec s Pending) as [-> | H1]; [tauto |].
  destruct (Z.eqb_spec s Processing) as [-> | H2]; [tauto |].
  destruct (Z.eqb_spec s Done) as [-> | H3]; [tauto |].
  destruct (Z.eqb_spec s Dead) as [-> | H4]; [tauto |].
  right; right; right; right. split; [| done].
  rewrite !not_elem_of_cons. pose proof (not_elem_of_nil s). tauto.
Qed.

(** X2. Every status value, named or not, prints as one of the five
    canonical names, so its printed form always parses; it parses back to
    the value itself exactly for the five named values, and to [Unknown]
    for every other value. *)
Theorem String_parses (s : Status) :
  String s ∈ ["Unknown"; "Pending"; "Processing"; "Done"; "Dead"]
  /\ (ParseStatus (String s) = inl s
      <-> s ∈ [Unknown; Pending; Processing; Done; Dead])
  /\ (s ∉ [Unknown; Pending; Processing; Done; Dead] ->
      ParseStatus (String s) = inl Unknown).
Proof.
  unfold String.
  destruct (statusToString_cases s)
    as [[-> ->] | [[-> ->] | [[-> ->] | [[-> ->] | [Hs ->]]]]].
  1-4: split; [set_solver |]; split; [split; [set_solver | done] |];
       intros Hout; exfalso; apply Hout; set_solver.
  split; [set_solver |]. split.
  - split.
    + intros [= <-]. set_solver.
    + intros [-> | Hin]%elem_of_cons; [done | by destruct Hs].
  - done.
Qed.

(** X3. The text codec: unmarshalling the marshalled form of a named
    status writes that status into any receiver, without error, and
    marshalling never fails; bytes that do not spell one of the five names
    are rejected and leave the receiver as it was. *)
Theorem UnmarshalText_MarshalText :
  (forall s receiver : Status,
     s ∈ [Unknown; Pending; Processing; Done; Dead] ->
     (MarshalText s).2 = None
     /\ UnmarshalText receiver (MarshalText s).1 = (s, None)) /\
  (forall (receiver : Status) (text : list Byte.byte),
     string_of_list_byte text
       ∉ ["Unknown"; "Pending"; "Processing"; "Done"; "Dead"] ->
     exists err, UnmarshalText receiver text = (receiver, Some err)).
Proof.
  split.
  - intros s receiver Hs. split; [done |].
    unfold UnmarshalText, MarshalText. cbn [fst].
    rewrite string_of_list_byte_of_string.
    repeat (apply elem_of_cons in Hs as [-> | Hs]; [reflexivity |]).
    by apply elem_of_nil in Hs.
  - intros receiver text Htext. unfold UnmarshalText.
    rewrite (statusFromString_other _ Htext). by eexists.
Qed.

Lemma UnmarshalText_MarshalText_witness :
  UnmarshalText Pending (MarshalText Done).1 = (Done, None).
Proof.
  destruct UnmarshalText_MarshalText as [Hround _].
  apply Hround. repeat constructor.
Defined.

End StatusNames.

(** ** Pushing and observing *)

Section PushObserve.

Import gqs sql.

Implicit Types (t : table) (r : jobModel) (env : Env).

Lemma toJob_fromMessage now msg delay :
  toJob (message.Id msg) (fromMessage now msg delay)
  = {| job.Job.Message := msg;
       job.Job.CreatedAt := now;
       job.Job.UpdatedAt := now;
       job.Job.Status := job.Pending;
       job.Job.Attempts := 0;
       job.Job.LockedUntil := None;
       job.Job.NextRunAt := now + delay |}.
Proof. by destruct msg. Qed.

Lemma Get_live env id t :
  fail env = None -> Get env id t = (toJob id <$> t !! id, None).
Proof.
  intros Hlive. unfold Get, scanRow. rewrite Hlive.
  by destruct (t !! id).
Qed.

(** X4. A message pushed under an identifier that the store does not hold
    is there to observe at once: [Get] returns a job under that
    identifier with the payload of the message, [Pending], no attempt, no
    lock, created and updated at the time of the push and due [delay]
    later; what [Get] returns for every other identifier is as before the
    push. (The metadata that the store hands back is not stated.) *)
Theorem Push_then_Get env env' msg delay t :
  fail env = None ->
  fail env' = None ->
  t !! message.Id msg = None ->
  (Push env msg delay t).2 = None
  /\ (exists jb,
        Get env' (message.Id msg) (Push env msg delay t).1 = (Some jb, None)
        /\ jobId jb = message.Id msg
        /\ message.Payload (job.Job.Message jb) = message.Payload msg
        /\ job.Job.CreatedAt jb = now env
        /\ job.Job.UpdatedAt jb = now env
        /\ job.Job.Status jb = job.Pending
        /\ job.Job.Attempts jb = 0
        /\ job.Job.LockedUntil jb = None
        /\ job.Job.NextRunAt jb = now env + delay)
  /\ forall id,
       id <> message.Id msg ->
       Get env' id (Push env msg delay t).1 = Get env' id t.
Proof.
  intros Hlive Hlive' Hfresh. unfold Push, Exec, insertRow.
  rewrite Hlive, Hfresh. cbn [fst snd].
  split; [done |]. split.
  - rewrite (Get_live _ _ _ Hlive'), lookup_insert_eq. simpl.
    rewrite toJob_fromMessage. eexists. split; [reflexivity |].
    repeat split.
  - intros id Hne. rewrite !(Get_live _ _ _ Hlive').
    by rewrite lookup_insert_ne.
Qed.

Lemma Push_then_Get_witness :
  exists jb,
    Get (examples.at_ 105) 7 examples.pushed = (Some jb, None)
    /\ job.Job.Status jb = job.Pending
    /\ job.Job.NextRunAt jb = 100.
Proof.
  destruct (Push_then_Get (examples.at_ 100) (examples.at_ 105)
              (examples.msg 7) 0 ∅ eq_refl eq_refl (lookup_empty _))
    as (_ & (jb & Hget & _ & _ & _ & _ & Hst & _ & _ & Hnext) & _).
  exists jb. split; [exact Hget |]. split; [exact Hst | exact Hnext].
Defined.

(** X5. [Push] returns nil exactly when the round trip to the store
    succeeds and the identifier is new. In every other case, a duplicate
    identifier included, it returns an error and the store is as it was:
    the stored job is not overwritten. *)
Theorem Push_refused env msg delay t :
  ((Push env msg delay t).2 = None
   <-> fail env = None /\ t !! message.Id msg = None)
  /\ ((Push env msg delay t).2 <> None -> (Push env msg delay t).1 = t).
Proof.
  unfold Push, Exec, insertRow.
  destruct (fail env) as [e |]; cbn [fst snd].
  - split; [split; [done | by intros [? _]] | done].
  - destruct (t !! message.Id msg) as [r |]; cbn [fst snd].
    + split; [split; [done | by intros [_ ?]] | done].
    + split; [done | done].
Qed.

Lemma Push_refused_witness :
  (Push (examples.at_ 130) (examples.msg 7) 5 examples.claimed).1
  = examples.claimed.
Proof.
  pose proof (Push_refused (examples.at_ 130) (examples.msg 7) 5
                examples.claimed) as [_ Hsame].
  apply Hsame. vm_compute. discriminate.
Defined.

Section Listing.

Context `{QB : QueryBuilder}.

(** X6. [List] returns snapshots of stored rows, each identifier at most
    once, and with a status other than [Unknown] only rows in that status.
    With a limit of zero or less it returns every such row; with a
    positive limit it returns the first [limit] jobs of that full
    listing. *)
Theorem List_spec env status limit t :
  fail env = None ->
  exists rows,
    List env status limit t = inl ((fun kv => toJob kv.1 kv.2) <$> rows)
    /\ NoDup rows.*1
    /\ (forall id r, (id, r) ∈ rows ->
          t !! id = Some r /\ (status = job.Unknown \/ Status r = status))
    /\ (limit <= 0 ->
        forall id r,
          t !! id = Some r -> status = job.Unknown \/ Status r = status ->
          (id, r) ∈ rows)
    /\ (0 < limit ->
        rows = take (Z.to_nat limit) (listed status 0 t)).
Proof.
  intros Hlive.
  assert (Hfull : forall id r,
            (id, r) ∈ listed status 0 t <->
            t !! id = Some r /\ (status = job.Unknown \/ Status r = status)).
  { intros id r. unfold listed. cbn [Z.ltb Z.compare].
    destruct (Z.eqb_spec status 0) as [-> | Hne]; cbn [negb].
    - rewrite elem_of_map_to_list. unfold job.Unknown. tauto.
    - rewrite list_elem_of_filter, elem_of_map_to_list. simpl.
      unfold job.Unknown. tauto. }
  assert (Hnodup : NoDup (listed status 0 t).*1).
  { unfold listed. cbn [Z.ltb Z.compare].
    destruct (negb (status =? 0)).
    - eapply sublist_NoDup; [apply (NoDup_fst_map_to_list t) |].
      apply fmap_sublist, sublist_filter.
    - apply NoDup_fst_map_to_list. }
  assert (Hpos : 0 < limit ->
            listed status limit t
            = take (Z.to_nat limit) (listed status 0 t)).
  { intros Hl. unfold listed. cbn [Z.ltb Z.compare].
    destruct (Z.ltb_spec 0 limit) as [_ | ?]; [| lia].
    apply Limit_positive. exact Hl. }
  assert (Hnonpos : limit <= 0 -> listed status limit t = listed status 0 t).
  { intros Hl. unfold listed. cbn [Z.ltb Z.compare].
    destruct (Z.ltb_spec 0 limit) as [? | _]; [lia | done]. }
  exists (listed status limit t). unfold List.
  rewrite (Exec_live _ _ _ Hlive). cbn [snd].
  assert (Hsub : listed status limit t `sublist_of` listed status 0 t).
  { destruct (Z.lt_ge_cases 0 limit) as [Hl | Hl].
    - rewrite (Hpos Hl). apply sublist_take.
    - by rewrite Hnonpos by lia. }
  split; [done |]. split; [| split; [| split]].
  - eapply sublist_NoDup; [exact Hnodup |]. by apply fmap_sublist.
  - intros id r Hin. apply Hfull. by eapply elem_of_sublist.
  - intros Hl id r Hrow Hst. rewrite (Hnonpos Hl). by apply Hfull.
  - exact Hpos.
Qed.

End Listing.

End PushObserve.

Lemma List_spec_witness :
  exists rows,
    @sql.List examples.builder (examples.at_ 130) job.Processing 0
      examples.claimed
    = inl ((fun kv => sql.toJob kv.1 kv.2) <$> rows).
Proof.
  destruct (@List_spec examples.builder (examples.at_ 130) job.Processing 0
              examples.claimed eq_refl) as (rows & Hlist & _).
  by exists rows.
Defined.

(** ** The other transitions *)

Section TransitionSpecs.

Import gqs sql.

Implicit Types (t : table) (r : jobModel) (jb : job.Job.t) (env : Env).

Lemma isProcessing_true r : isProcessing r = true <-> Status r = job.Processing.
Proof. unfold isProcessing. apply Z.eqb_eq. Qed.

Lemma isLive_true r :
  isLive r = true <-> Status r = job.Pending \/ Status r = job.Processing.
Proof. unfold isLive. by rewrite orb_true_iff, !Z.eqb_eq. Qed.

(** X7. [ExtendLock] succeeds exactly when the stored row of the job's
    identifier is in [Processing], whatever its lock says: a lease that
    has already expired is renewed too. It then moves the lock of that row
    to [now + lock] and the update time to [now] and writes no other
    column and no other row. Otherwise it returns [ErrLockLost] and the
    store is as it was. *)
Theorem ExtendLock_spec env jb lock t :
  fail env = None ->
  ((ExtendLock env jb lock t).2 = None <->
   exists r, t !! jobId jb = Some r /\ Status r = job.Processing) /\
  (forall r,
     t !! jobId jb = Some r -> Status r = job.Processing ->
     exists r',
       (ExtendLock env jb lock t).1.1 = <[jobId jb := r']> t
       /\ LockedUntil r' = Some (now env + lock)
       /\ UpdatedAt r' = now env
       /\ Status r' = job.Processing
       /\ NextRunAt r' = NextRunAt r
       /\ CreatedAt r' = CreatedAt r
       /\ Attempts r' = Attempts r
       /\ Metadata r' = Metadata r
       /\ Payload r' = Payload r) /\
  ((ExtendLock env jb lock t).2 <> None ->
   (ExtendLock env jb lock t).2 = Some ErrLockLost
   /\ (ExtendLock env jb lock t).1.1 = t).
Proof.
  intros Hlive. rewrite (ExtendLock_run _ _ _ _ Hlive).
  destruct (t !! jobId jb) as [r |] eqn:Hrow.
  - destruct (isProcessing r) eqn:Hp; simpl.
    + apply isProcessing_true in Hp.
      split; [split; [eauto | done] |]. split; [| done].
      intros r0 [= <-] _. exists (extended (now env) lock r).
      repeat split. exact Hp.
    + assert (Hst : Status r <> job.Processing).
      { intros Hst%isProcessing_true. congruence. }
      split; [split; [done |] |].
      * intros (r0 & [= <-] & Hst'). done.
      * split; [| done]. intros r0 [= <-] Hst'. done.
  - simpl. split; [split; [done |] |].
    + intros (r0 & Hr0 & _). done.
    + split; [| done]. intros r0 Hr0. done.
Qed.

Lemma ExtendLock_spec_witness :
  (ExtendLock (examples.at_ 500) examples.claimedJob 50
     examples.claimed).2 = None.
Proof.
  pose proof (ExtendLock_spec (examples.at_ 500) examples.claimedJob 50
                examples.claimed eq_refl) as (Hiff & _).
  apply Hiff. eexists. split; [vm_compute; reflexivity | reflexivity].
Defined.

(** X8. [Complete] succeeds exactly when the stored row of the job's
    identifier is in [Processing]. It then makes that row [Done], clears
    its lock and sets the update time to [now], and writes no other
    column and no other row. Otherwise it returns [ErrCompleteFailed] and
    the store is as it was. *)
Theorem Complete_spec env jb t :
  fail env = None ->
  ((Complete env jb t).2 = None <->
   exists r, t !! jobId jb = Some r /\ Status r = job.Processing) /\
  (forall r,
     t !! jobId jb = Some r -> Status r = job.Processing ->
     exists r',
       (Complete env jb t).1.1 = <[jobId jb := r']> t
       /\ Status r' = job.Done
       /\ LockedUntil r' = None
       /\ UpdatedAt r' = now env
       /\ NextRunAt r' = NextRunAt r
       /\ CreatedAt r' = CreatedAt r
       /\ Attempts r' = Attempts r
       /\ Metadata r' = Metadata r
       /\ Payload r' = Payload r) /\
  ((Complete env jb t).2 <> None ->
   (Complete env jb t).2 = Some ErrCompleteFailed
   /\ (Complete env jb t).1.1 = t).
Proof.
  intros Hlive. rewrite (Complete_run _ _ _ Hlive).
  destruct (t !! jobId jb) as [r |] eqn:Hrow.
  - destruct (isProcessing r) eqn:Hp; simpl.
    + apply isProcessing_true in Hp.
      split; [split; [eauto | done] |]. split; [| done].
      intros r0 [= <-] _. exists (completed (now env) r).
      repeat split.
    + assert (Hst : Status r <> job.Processing).
      { intros Hst%isProcessing_true. congruence. }
      split; [split; [done |] |].
      * intros (r0 & [= <-] & Hst'). done.
      * split; [| done]. intros r0 [= <-] Hst'. done.
  - simpl. split; [split; [done |] |].
    + intros (r0 & Hr0 & _). done.
    + split; [| done]. intros r0 Hr0. done.
Qed.

Lemma Complete_spec_witness :
  (Complete (examples.at_ 120) examples.claimedJob examples.claimed).2
  = None.
Proof.
  pose proof (Complete_spec (examples.at_ 120) examples.claimedJob
                examples.claimed eq_refl) as (Hiff & _).
  apply Hiff. eexists. split; [vm_compute; reflexivity | reflexivity].
Defined.

(** X9. [Kill] succeeds exactly when the stored row of the job's
    identifier is in [Pending] or in [Processing]. It then makes that row
    [Dead], clears its lock and sets the update time to [now], and writes
    no other column and no other row. Otherwise it returns [ErrJobLost]
    and the store is as it was. *)
Theorem Kill_spec env jb t :
  fail env = None ->
  ((Kill env jb t).2 = None <->
   exists r, t !! jobId jb = Some r
             /\ (Status r = job.Pending \/ Status r = job.Processing)) /\
  (forall r,
     t !! jobId jb = Some r ->
     Status r = job.Pending \/ Status r = job.Processing ->
     exists r',
       (Kill env jb t).1.1 = <[jobId jb := r']> t
       /\ Status r' = job.Dead
       /\ LockedUntil r' = None
       /\ UpdatedAt r' = now env
       /\ NextRunAt r' = NextRunAt r
       /\ CreatedAt r' = CreatedAt r
       /\ Attempts r' = Attempts r
       /\ Metadata r' = Metadata r
       /\ Payload r' = Payload r) /\
  ((Kill env jb t).2 <> None ->
   (Kill env jb t).2 = Some ErrJobLost /\ (Kill env jb t).1.1 = t).
Proof.
  intros Hlive. rewrite (Kill_run _ _ _ Hlive).
  destruct (t !! jobId jb) as [r |] eqn:Hrow.
  - destruct (isLive r) eqn:Hp; simpl.
    + apply isLive_true in Hp.
      split; [split; [eauto | done] |]. split; [| done].
      intros r0 [= <-] _. exists (killed (now env) r).
      repeat split.
    + assert (Hst : ~ (Status r = job.Pending \/ Status r = job.Processing)).
      { intros Hst%isLive_true. congruence. }
      split; [split; [done |] |].
      * intros (r0 & [= <-] & Hst'). done.
      * split; [| done]. intros r0 [= <-] Hst'. done.
  - simpl. split; [split; [done |] |].
    + intros (r0 & Hr0 & _). done.
    + split; [| done]. intros r0 Hr0. done.
Qed.

Lemma Kill_spec_witness :
  (Kill (examples.at_ 105) examples.claimedJob examples.pushed).2 = None.
Proof.
  pose proof (Kill_spec (examples.at_ 105) examples.claimedJob
                examples.pushed eq_refl) as (Hiff & _).
  apply Hiff. eexists. split; [vm_compute; reflexivity |]. by left.
Defined.

(** X10. On a job whose row is [Done] or [Dead], or is not in the store,
    every transition is refused with its own error ([ErrLockLost],
    [ErrCompleteFailed], [ErrJobLost], [ErrJobLost]) and changes neither
    the store nor the caller's snapshot: a finished job stays finished. *)
Theorem terminal_refuses env jb lock backoff t :
  fail env = None ->
  (forall r, t !! jobId jb = Some r -> terminal r) ->
  ExtendLock env jb lock t = (t, jb, Some ErrLockLost)
  /\ Complete env jb t = (t, jb, Some ErrCompleteFailed)
  /\ Return env jb backoff t = (t, jb, Some ErrJobLost)
  /\ Kill env jb t = (t, jb, Some ErrJobLost).
Proof.
  intros Hlive Hterm.
  rewrite (ExtendLock_run _ _ _ _ Hlive), (Complete_run _ _ _ Hlive),
    (Return_run _ _ _ _ Hlive), (Kill_run _ _ _ Hlive).
  destruct (t !! jobId jb) as [r |]; [| done].
  assert (Hp : isProcessing r = false).
  { destruct (isProcessing r) eqn:Hp; [| done].
    apply isProcessing_true in Hp.
    destruct (Hterm r eq_refl) as [Hd | Hd]; rewrite Hp in Hd; done. }
  assert (Hl : isLive r = false).
  { destruct (isLive r) eqn:Hl; [| done].
    apply isLive_true in Hl.
    destruct (Hterm r eq_refl) as [Hd | Hd], Hl as [Hl | Hl];
      rewrite Hl in Hd; done. }
  by rewrite Hp, Hl.
Qed.

Lemma terminal_refuses_witness :
  Return (examples.at_ 125) examples.claimedJob 30 examples.finished
  = (examples.finished, examples.claimedJob, Some ErrJobLost).
Proof.
  apply (terminal_refuses (examples.at_ 125) examples.claimedJob 50 30
           examples.finished eq_refl).
  intros r Hrow. vm_compute in Hrow. injection Hrow as <-. by left.
Defined.

End TransitionSpecs.

(** ** What the operations do to the rows of the store *)

Section StoreHistory.

Import gqs sql.
Context `{QB : QueryBuilder}.

Implicit Types (t : table) (r : jobModel) (jb : job.Job.t) (env : Env)
  (id : message.uuid).

(** A transition writes the row of its job, when the row passes the guard
    of the transition, or nothing. *)
Lemma transition_cases env jb lock backoff t :
  ((ExtendLock env jb lock t).1.1 = t
   \/ exists r, t !! jobId jb = Some r /\ isProcessing r = true
        /\ (ExtendLock env jb lock t).1.1
           = <[jobId jb := extended (now env) lock r]> t)
  /\ ((Complete env jb t).1.1 = t
      \/ exists r, t !! jobId jb = Some r /\ isProcessing r = true
           /\ (Complete env jb t).1.1
              = <[jobId jb := completed (now env) r]> t)
  /\ ((Return env jb backoff t).1.1 = t
      \/ exists r, t !! jobId jb = Some r /\ isProcessing r = true
           /\ (Return env jb backoff t).1.1
              = <[jobId jb := returned (now env) backoff r]> t)
  /\ ((Kill env jb t).1.1 = t
      \/ exists r, t !! jobId jb = Some r /\ isLive r = true
           /\ (Kill env jb t).1.1 = <[jobId jb := killed (now env) r]> t).
Proof.
  destruct (fail env) as [e |] eqn:Hfail.
  - unfold ExtendLock, Complete, Return, Kill.
    rewrite !(Exec_fail _ _ _ _ Hfail). repeat split; by left.
  - rewrite (ExtendLock_run _ _ _ _ Hfail), (Complete_run _ _ _ Hfail),
      (Return_run _ _ _ _ Hfail), (Kill_run _ _ _ Hfail).
    destruct (t !! jobId jb) as [r |]; [| repeat split; by left].
    destruct (isProcessing r) eqn:Hp, (isLive r) eqn:Hl; cbn [fst snd];
      repeat split; first [by left | right; by exists r].
Qed.

Lemma Pull_lookup env batch lock t id :
  (Pull env batch lock t).1 !! id = t !! id
  \/ (id ∈ subQuery (now env) batch t
      /\ (Pull env batch lock t).1 !! id
         = claim (now env) (now env + lock) <$> t !! id).
Proof.
  unfold Pull, Exec. destruct (fail env); [by left |].
  cbn [fst updateReturning]. rewrite lookup_updateRows.
  destruct (decide (id ∈ subQuery (now env) batch t)) as [Hin | Hout].
  - right. split; [done |]. by rewrite bool_decide_eq_true_2.
  - left. rewrite bool_decide_eq_false_2 by done. by destruct (t !! id).
Qed.

Lemma subQuery_Eligible now batch t id :
  limitSelects ->
  id ∈ subQuery now batch t -> exists r, t !! id = Some r /\ Eligible now r.
Proof.
  intros Hsel ([id' r] & -> & Hin)%list_elem_of_fmap. exists r.
  apply elem_of_due. eapply elem_of_sublist; [exact Hin | apply Hsel].
Qed.

Lemma Push_lookup env msg delay t id :
  (Push env msg delay t).1 !! id = t !! id
  \/ (t !! id = None
      /\ (Push env msg delay t).1 !! id
         = Some (fromMessage (now env) msg delay)).
Proof.
  unfold Push, Exec, insertRow. destruct (fail env); [by left |].
  destruct (t !! message.Id msg) eqn:Hrow; cbn [fst]; [by left |].
  destruct (decide (id = message.Id msg)) as [-> | Hne].
  - right. by rewrite lookup_insert_eq.
  - left. by rewrite lookup_insert_ne.
Qed.

Lemma Clean_lookup env status before t id r :
  t !! id = Some r ->
  (Clean env status before t).1.1 !! id = Some r
  \/ ((Clean env status before t).1.1 !! id = None /\ terminal r).
Proof.
  intros Hrow. unfold Clean.
  destruct (negb (status =? 0) && negb (status =? job.Dead)
            && negb (status =? job.Done)) eqn:Hguard; [by left |].
  unfold Exec. destruct (fail env); [by left |]. cbn [fst snd deleteRows].
  destruct (cleanStatus status r && cleanBefore before r) eqn:Hc.
  - right. split.
    + apply map_lookup_filter_None. right. intros r0 Hr0. simpl.
      rewrite Hrow in Hr0. injection Hr0 as <-. by rewrite Hc.
    + apply andb_true_iff in Hc as [Hs _]. unfold cleanStatus in Hs.
      unfold terminal.
      destruct (Z.eqb_spec status 0) as [-> | Hne]; cbn [negb] in Hs, Hguard.
      * apply orb_true_iff in Hs. by rewrite !Z.eqb_eq in Hs.
      * apply Z.eqb_eq in Hs. rewrite Hs.
        destruct (Z.eqb_spec status job.Dead) as [-> | Hd]; [by right |].
        destruct (Z.eqb_spec status job.Done) as [-> | Hd']; [by left |].
        done.
  - left. apply map_lookup_filter_Some. split; [done |]. simpl. exact Hc.
Qed.

Lemma Clean_lookup_Some env status before t id r :
  (Clean env status before t).1.1 !! id = Some r -> t !! id = Some r.
Proof.
  unfold Clean.
  destruct (negb (status =? 0) && negb (status =? job.Dead)
            && negb (status =? job.Done)); [done |].
  unfold Exec. destruct (fail env); [done |]. cbn [fst snd deleteRows].
  by intros [? _]%map_lookup_filter_Some.
Qed.

Lemma isProcessing_not_terminal r : isProcessing r = true -> ~ terminal r.
Proof.
  intros Hp%isProcessing_true [Hd | Hd]; rewrite Hp in Hd; done.
Qed.

Lemma isLive_not_terminal r : isLive r = true -> ~ terminal r.
Proof.
  intros [Hp | Hp]%isLive_true [Hd | Hd]; rewrite Hp in Hd; done.
Qed.

Lemma Eligible_not_terminal now r : Eligible now r -> ~ terminal r.
Proof.
  intros [_ [Hp | [Hp _]]] [Hd | Hd]; rewrite Hp in Hd; done.
Qed.

(** What one operation can do to a row that is in the store. *)
Lemma step_row_cases t t' id r :
  limitSelects ->
  step t t' ->
  t !! id = Some r ->
  t' !! id = Some r
  \/ (t' !! id = None /\ terminal r)
  \/ exists r',
       t' !! id = Some r' /\ ~ terminal r /\ sameMessage r r'
       /\ Attempts r <= Attempts r' <= Attempts r + 1.
Proof.
  intros Hsel Hstep Hrow.
  assert (Hwrite : forall k guard written,
            t !! k = Some guard ->
            ~ terminal guard ->
            sameMessage guard written ->
            Attempts guard <= Attempts written <= Attempts guard + 1 ->
            <[k := written]> t !! id = Some r
            \/ (<[k := written]> t !! id = None /\ terminal r)
            \/ exists r',
                 <[k := written]> t !! id = Some r' /\ ~ terminal r
                 /\ sameMessage r r'
                 /\ Attempts r <= Attempts r' <= Attempts r + 1).
  { intros k guard written Hk Hnt Hsame Hatt.
    destruct (decide (id = k)) as [-> | Hne].
    - right; right. exists written. rewrite lookup_insert_eq.
      rewrite Hrow in Hk. injection Hk as <-. done.
    - left. by rewrite lookup_insert_ne. }
  destruct Hstep as [env msg delay t | env batch lock t | env jb lock t
                    | env jb t | env jb backoff t | env jb t
                    | env status before t].
  - destruct (Push_lookup env msg delay t id) as [-> | [Hnone _]];
      [by left | congruence].
  - destruct (Pull_lookup env batch lock t id) as [-> | [Hin ->]];
      [by left |].
    destruct (subQuery_Eligible _ _ _ _ Hsel Hin) as (r0 & Hr0 & Helig).
    rewrite Hrow in Hr0. injection Hr0 as <-. rewrite Hrow.
    right; right. eexists. split; [reflexivity |].
    split; [by eapply Eligible_not_terminal |].
    split; [done | simpl; lia].
  - destruct (transition_cases env jb lock 0 t)
      as ([-> | (r0 & Hr0 & Hg & ->)] & _); [by left |].
    apply (Hwrite _ r0); [done | by apply isProcessing_not_terminal | done |].
    simpl. lia.
  - destruct (transition_cases env jb 0 0 t)
      as (_ & [-> | (r0 & Hr0 & Hg & ->)] & _); [by left |].
    apply (Hwrite _ r0); [done | by apply isProcessing_not_terminal | done |].
    simpl. lia.
  - destruct (transition_cases env jb 0 backoff t)
      as (_ & _ & [-> | (r0 & Hr0 & Hg & ->)] & _); [by left |].
    apply (Hwrite _ r0); [done | by apply isProcessing_not_terminal | done |].
    simpl. lia.
  - destruct (transition_cases env jb 0 0 t)
      as (_ & _ & _ & [-> | (r0 & Hr0 & Hg & ->)]); [by left |].
    apply (Hwrite _ r0); [done | by apply isLive_not_terminal | done |].
    simpl. lia.
  - destruct (Clean_lookup env status before t id r Hrow) as [-> | Hgone];
      [by left | by right; left].
Qed.

(** X11. Across any one operation of the package, by any caller, a row
    that is still in the store carries the same message (metadata,
    payload) and creation time, and its attempt count has not gone down
    and has gone up by one at most. *)
Theorem attempts_never_decrease t t' id r r' :
  limitSelects ->
  step t t' ->
  t !! id = Some r ->
  t' !! id = Some r' ->
  sameMessage r r' /\ Attempts r <= Attempts r' <= Attempts r + 1.
Proof.
  intros Hsel Hstep Hrow Hrow'.
  destruct (step_row_cases t t' id r Hsel Hstep Hrow)
    as [Hsame | [[Hnone _] | (r0 & Hr0 & _ & Hmsg & Hatt)]].
  - rewrite Hsame in Hrow'. injection Hrow' as <-. split; [done | lia].
  - congruence.
  - rewrite Hr0 in Hrow'. by injection Hrow' as <-.
Qed.

(** X12. No operation of the package changes a row that is [Done] or
    [Dead]: after any one operation such a row is in the store exactly as
    it was, or it is gone (deleted by [Clean]). *)
Theorem terminal_rows_final t t' id r :
  limitSelects ->
  step t t' ->
  t !! id = Some r ->
  terminal r ->
  t' !! id = Some r \/ t' !! id = None.
Proof.
  intros Hsel Hstep Hrow Hterm.
  destruct (step_row_cases t t' id r Hsel Hstep Hrow)
    as [Hsame | [[Hnone _] | (r0 & _ & Hnt & _)]]; [by left | by right |].
  by destruct Hnt.
Qed.

(** X13. No operation of the package deletes a row that is neither [Done]
    nor [Dead]: after any one operation, [Clean] with any arguments
    included, such a row is still in the store. *)
Theorem live_rows_survive t t' id r :
  limitSelects ->
  step t t' ->
  t !! id = Some r ->
  ~ terminal r ->
  is_Some (t' !! id).
Proof.
  intros Hsel Hstep Hrow Hnt.
  destruct (step_row_cases t t' id r Hsel Hstep Hrow)
    as [Hsame | [[_ Hterm] | (r0 & Hr0 & _)]]; [by eexists | done |].
  by eexists.
Qed.

(** X14. A row enters the store through [Push] only, and as a new job:
    a row that one operation has added is [Pending], has no attempt and
    no lock, and its creation and update times are equal. *)
Theorem rows_created_Pending t t' id r' :
  step t t' ->
  t !! id = None ->
  t' !! id = Some r' ->
  Status r' = job.Pending
  /\ Attempts r' = 0
  /\ LockedUntil r' = None
  /\ CreatedAt r' = UpdatedAt r'.
Proof.
  intros Hstep Hnone Hrow'.
  destruct Hstep as [env msg delay t | env batch lock t | env jb lock t
                    | env jb t | env jb backoff t | env jb t
                    | env status before t].
  - destruct (Push_lookup env msg delay t id) as [Heq | [_ Heq]];
      rewrite Heq in Hrow'; [congruence |].
    by injection Hrow' as <-.
  - destruct (Pull_lookup env batch lock t id) as [Heq | [_ Heq]];
      rewrite Heq, Hnone in Hrow'; done.
  - destruct (transition_cases env jb lock 0 t)
      as ([Heq | (r0 & Hr0 & _ & Heq)] & _); rewrite Heq in Hrow';
      [congruence |].
    destruct (decide (id = jobId jb)) as [-> | Hne]; [congruence |].
    rewrite lookup_insert_ne in Hrow' by done. congruence.
  - destruct (transition_cases env jb 0 0 t)
      as (_ & [Heq | (r0 & Hr0 & _ & Heq)] & _); rewrite Heq in Hrow';
      [congruence |].
    destruct (decide (id = jobId jb)) as [-> | Hne]; [congruence |].
    rewrite lookup_insert_ne in Hrow' by done. congruence.
  - destruct (transition_cases env jb 0 backoff t)
      as (_ & _ & [Heq | (r0 & Hr0 & _ & Heq)] & _); rewrite Heq in Hrow';
      [congruence |].
    destruct (decide (id = jobId jb)) as [-> | Hne]; [congruence |].
    rewrite lookup_insert_ne in Hrow' by done. congruence.
  - destruct (transition_cases env jb 0 0 t)
      as (_ & _ & _ & [Heq | (r0 & Hr0 & _ & Heq)]); rewrite Heq in Hrow';
      [congruence |].
    destruct (decide (id = jobId jb)) as [-> | Hne]; [congruence |].
    rewrite lookup_insert_ne in Hrow' by done. congruence.
  - apply Clean_lookup_Some in Hrow'. congruence.
Qed.

End StoreHistory.

Lemma builder_limitSelects : @sql.limitSelects examples.builder.
Proof.
  intros A n l. simpl. unfold examples.limitIfPositive.
  destruct (0 <? n); [apply sublist_take | reflexivity].
Qed.

Lemma attempts_never_decrease_witness :
  sql.Attempts (sql.fromMessage 100 (examples.msg 7) 0)
  <= sql.Attempts
       (sql.claim 110 160 (sql.fromMessage 100 (examples.msg 7) 0))
  <= sql.Attempts (sql.fromMessage 100 (examples.msg 7) 0) + 1.
Proof.
  apply (@attempts_never_decrease examples.builder examples.pushed
           examples.claimed 7).
  - exact builder_limitSelects.
  - apply sql.step_Pull.
  - vm_compute. reflexivity.
  - vm_compute. reflexivity.
Defined.

Lemma terminal_rows_final_witness :
  (sql.Kill (examples.at_ 125) examples.claimedJob examples.finished).1.1
    !! 7
  = Some (sql.completed 116
            (sql.claim 110 160 (sql.fromMessage 100 (examples.msg 7) 0)))
  \/ (sql.Kill (examples.at_ 125) examples.claimedJob examples.finished).1.1
       !! 7
     = None.
Proof.
  apply (@terminal_rows_final examples.builder examples.finished).
  - exact builder_limitSelects.
  - apply sql.step_Kill.
  - vm_compute. reflexivity.
  - by left.
Defined.

Lemma live_rows_survive_witness :
  is_Some
    ((sql.Clean (examples.at_ 130) job.Unknown None examples.pushed).1.1
       !! 7).
Proof.
  apply (@live_rows_survive examples.builder examples.pushed _ 7
           (sql.fromMessage 100 (examples.msg 7) 0)).
  - exact builder_limitSelects.
  - apply sql.step_Clean.
  - vm_compute. reflexivity.
  - intros [Hd | Hd]; discriminate Hd.
Defined.

Lemma rows_created_Pending_witness :
  sql.Status (sql.fromMessage 100 (examples.msg 7) 0) = job.Pending
  /\ sql.Attempts (sql.fromMessage 100 (examples.msg 7) 0) = 0
  /\ sql.LockedUntil (sql.fromMessage 100 (examples.msg 7) 0) = None
  /\ sql.CreatedAt (sql.fromMessage 100 (examples.msg 7) 0)
     = sql.UpdatedAt (sql.fromMessage 100 (examples.msg 7) 0).
Proof.
  apply (@rows_created_Pending examples.builder ∅ examples.pushed 7).
  - apply sql.step_Push.
  - reflexivity.
  - vm_compute. reflexivity.
Defined.

(** ** Statuses in the store, and the rows an operation leaves alone *)

Section StoreShape.

Import gqs sql.
Context `{QB : QueryBuilder}.

Implicit Types (t : table) (r : jobModel) (jb : job.Job.t) (env : Env)
  (id : message.uuid).

Lemma persisted_named (s : job.Status) r :
  s ∈ [job.Pending; job.Processing; job.Done; job.Dead] ->
  Status r = s -> persisted r.
Proof. intros Hs Hr. unfold persisted. by rewrite Hr. Qed.

Lemma step_persisted t t' :
  step t t' -> allRows persisted t -> allRows persisted t'.
Proof.
  intros Hstep Ht id r' Hrow'.
  assert (Hwrite : forall k written,
            persisted written ->
            <[k := written]> t !! id = Some r' -> persisted r').
  { intros k written Hw. destruct (decide (id = k)) as [-> | Hne].
    - rewrite lookup_insert_eq. by intros [= <-].
    - rewrite lookup_insert_ne by done. apply Ht. }
  destruct Hstep as [env msg delay t | env batch lock t | env jb lock t
                    | env jb t | env jb backoff t | env jb t
                    | env status before t].
  - destruct (Push_lookup env msg delay t id) as [Heq | [_ Heq]];
      rewrite Heq in Hrow'; [by eapply Ht |].
    injection Hrow' as <-. apply (persisted_named job.Pending); [| done].
    repeat constructor.
  - destruct (Pull_lookup env batch lock t id) as [Heq | [_ Heq]];
      rewrite Heq in Hrow'; [by eapply Ht |].
    destruct (t !! id) as [r |]; [| done]. injection Hrow' as <-.
    apply (persisted_named job.Processing); [| done]. repeat constructor.
  - destruct (transition_cases env jb lock 0 t)
      as ([Heq | (r0 & Hr0 & Hg & Heq)] & _); rewrite Heq in Hrow';
      [by eapply Ht |].
    refine (Hwrite _ _ _ Hrow'). exact (Ht _ _ Hr0).
  - destruct (transition_cases env jb 0 0 t)
      as (_ & [Heq | (r0 & Hr0 & Hg & Heq)] & _); rewrite Heq in Hrow';
      [by eapply Ht |].
    refine (Hwrite _ _ _ Hrow').
    apply (persisted_named job.Done); [| done]. repeat constructor.
  - destruct (transition_cases env jb 0 backoff t)
      as (_ & _ & [Heq | (r0 & Hr0 & Hg & Heq)] & _); rewrite Heq in Hrow';
      [by eapply Ht |].
    refine (Hwrite _ _ _ Hrow').
    apply (persisted_named job.Pending); [| done]. repeat constructor.
  - destruct (transition_cases env jb 0 0 t)
      as (_ & _ & _ & [Heq | (r0 & Hr0 & Hg & Heq)]); rewrite Heq in Hrow';
      [by eapply Ht |].
    refine (Hwrite _ _ _ Hrow').
    apply (persisted_named job.Dead); [| done]. repeat constructor.
  - apply Clean_lookup_Some in Hrow'. by eapply Ht.
Qed.

(** X15. In every table that the operations of the package build from
    the empty one, the status of every row is one of [Pending],
    [Processing], [Done], [Dead]: [Unknown] and unnamed values are never
    stored. *)
Theorem status_named t :
  reachable t ->
  forall id r, t !! id = Some r ->
    Status r ∈ [job.Pending; job.Processing; job.Done; job.Dead].
Proof.
  induction 1 as [| t t' _ IH Hstep].
  - intros id r. by rewrite lookup_empty.
  - by apply (step_persisted t t').
Qed.

(** X16. The transitions write the row of their job only: every row
    under another identifier is as it was. Neither they nor [Pull] add a
    row to the store or delete one. *)
Theorem Puller_frame env jb batch lock backoff t :
  (forall id, id <> jobId jb ->
     (ExtendLock env jb lock t).1.1 !! id = t !! id
     /\ (Complete env jb t).1.1 !! id = t !! id
     /\ (Return env jb backoff t).1.1 !! id = t !! id
     /\ (Kill env jb t).1.1 !! id = t !! id)
  /\ dom (Pull env batch lock t).1 = dom t
  /\ dom (ExtendLock env jb lock t).1.1 = dom t
  /\ dom (Complete env jb t).1.1 = dom t
  /\ dom (Return env jb backoff t).1.1 = dom t
  /\ dom (Kill env jb t).1.1 = dom t.
Proof.
  destruct (transition_cases env jb lock backoff t) as (He & Hc & Hr & Hk).
  assert (Hdom : forall t' written,
            (t' = t \/ exists r, t !! jobId jb = Some r
                                 /\ t' = <[jobId jb := written r]> t) ->
            dom t' = dom t
            /\ forall id, id <> jobId jb -> t' !! id = t !! id).
  { intros t' written [-> | (r & Hrow & ->)]; [done |]. split.
    - by apply dom_insert_lookup_L.
    - intros id Hne. by rewrite lookup_insert_ne. }
  assert (He' := Hdom (ExtendLock env jb lock t).1.1
                   (extended (now env) lock)).
  assert (Hc' := Hdom (Complete env jb t).1.1 (completed (now env))).
  assert (Hr' := Hdom (Return env jb backoff t).1.1
                   (returned (now env) backoff)).
  assert (Hk' := Hdom (Kill env jb t).1.1 (killed (now env))).
  destruct He' as [He1 He2];
    [destruct He as [? | (r & ? & ? & ?)]; [by left | right; by exists r] |].
  destruct Hc' as [Hc1 Hc2];
    [destruct Hc as [? | (r & ? & ? & ?)]; [by left | right; by exists r] |].
  destruct Hr' as [Hr1 Hr2];
    [destruct Hr as [? | (r & ? & ? & ?)]; [by left | right; by exists r] |].
  destruct Hk' as [Hk1 Hk2];
    [destruct Hk as [? | (r & ? & ? & ?)]; [by left | right; by exists r] |].
  split; [intros id Hne; auto |].
  split; [| done].
  apply set_eq. intros id. rewrite !elem_of_dom.
  destruct (Pull_lookup env batch lock t id) as [-> | [_ ->]]; [done |].
  apply fmap_is_Some.
Qed.

End StoreShape.

Lemma status_named_witness :
  sql.Status (sql.claim 110 160 (sql.fromMessage 100 (examples.msg 7) 0))
  ∈ [job.Pending; job.Processing; job.Done; job.Dead].
Proof.
  apply (@status_named examples.builder examples.claimed) with 7.
  - unfold examples.claimed, examples.pushed.
    eapply sql.reachable_step; [| apply sql.step_Pull].
    eapply sql.reachable_step; [apply sql.reachable_empty |].
    apply sql.step_Push.
  - vm_compute. reflexivity.
Defined.

Lemma Puller_frame_witness :
  dom (@sql.Pull examples.builder (examples.at_ 110) 1 50 examples.pushed).1
  = dom examples.pushed.
Proof.
  pose proof (@Puller_frame examples.builder (examples.at_ 110)
                examples.claimedJob 1 50 0 examples.pushed) as (_ & Hdom & _).
  exact Hdom.
Defined.

(** ** Leases and schedules *)

Section Leases.

Import gqs sql.
Context `{QB : QueryBuilder}.

Implicit Types (t : table) (r : jobModel) (jb : job.Job.t) (env : Env)
  (id : message.uuid).

(** A job that [Pull] returns is the snapshot of a row that the call has
    claimed. *)
Lemma Pull_returns env batch lock t jobs jb :
  (Pull env batch lock t).2 = inl jobs ->
  jb ∈ jobs ->
  exists r,
    t !! jobId jb = Some r
    /\ (Pull env batch lock t).1 !! jobId jb
       = Some (claim (now env) (now env + lock) r)
    /\ jb = toJob (jobId jb) (claim (now env) (now env + lock) r).
Proof.
  unfold Pull, Exec. destruct (fail env); [done |].
  cbn [fst snd updateReturning]. intros [= <-].
  intros ([id r] & -> & Hin)%list_elem_of_fmap.
  apply elem_of_map_to_list, lookup_matching in Hin as [Hrow Hcond].
  exists r. cbn [fst snd jobId toJob job.Job.Message message.Id].
  split; [done |]. split; [| done].
  rewrite lookup_updateRows, Hrow. simpl. by rewrite Hcond.
Qed.

(** X17. A job that a [Pull] has returned is hidden from every [Pull]
    that reads the clock no later than the end of its lease, [now + lock]:
    as long as nothing else has touched the store, no second call returns
    it. *)
Theorem Pull_hides_claimed env env' batch batch' lock lock' t jobs jobs' :
  limitSelects ->
  (Pull env batch lock t).2 = inl jobs ->
  now env' <= now env + lock ->
  (Pull env' batch' lock' (Pull env batch lock t).1).2 = inl jobs' ->
  forall jb jb', jb ∈ jobs -> jb' ∈ jobs' -> jobId jb <> jobId jb'.
Proof.
  intros Hsel Hjobs Hnow Hjobs' jb jb' Hin Hin' Heq.
  destruct (Pull_returns _ _ _ _ _ _ Hjobs Hin) as (r & _ & Hrow1 & _).
  assert (Hsub : jobId jb'
                 ∈ subQuery (now env') batch' (Pull env batch lock t).1).
  { revert Hjobs' Hin'. unfold Pull at 1, Exec.
    destruct (fail env'); [done |]. cbn [snd updateReturning].
    intros [= <-] ([id r'] & -> & Hin')%list_elem_of_fmap.
    apply elem_of_map_to_list, lookup_matching in Hin' as [_ Hc].
    by apply bool_decide_eq_true in Hc. }
  destruct (subQuery_Eligible _ _ _ _ Hsel Hsub) as (r' & Hrow' & Helig).
  rewrite <- Heq, Hrow1 in Hrow'. injection Hrow' as <-.
  destruct Helig as [_ [Hp | [_ (l & [= <-] & Hl)]]]; [done | lia].
Qed.

(** X18. With room in the batch for all of them, [Pull] claims every
    eligible row: each row that is due and either [Pending], or
    [Processing] under an expired lock, is written as claimed. *)
Theorem Pull_room env batch lock t :
  fail env = None ->
  0 < batch ->
  Z.of_nat (length (due (now env) t)) <= batch ->
  forall id r,
    t !! id = Some r -> Eligible (now env) r ->
    (Pull env batch lock t).1 !! id
    = Some (claim (now env) (now env + lock) r).
Proof.
  intros Hlive Hb Hroom id r Hrow Helig.
  assert (Hin : id ∈ subQuery (now env) batch t).
  { unfold subQuery. rewrite selected_take by done.
    rewrite take_ge by lia.
    apply (list_elem_of_fmap_2 fst _ (id, r)). by apply elem_of_due. }
  unfold Pull. rewrite (Exec_live _ _ _ Hlive).
  cbn [fst updateReturning]. rewrite lookup_updateRows, Hrow. simpl.
  by rewrite bool_decide_eq_true_2.
Qed.

(** X19. A job that [Return] has put back is eligible again from
    [now + backoff] on and not before: its row is [Pending] with that run
    time. *)
Theorem Return_schedules env jb backoff t r :
  fail env = None ->
  t !! jobId jb = Some r ->
  Status r = job.Processing ->
  exists r',
    (Return env jb backoff t).1.1 !! jobId jb = Some r'
    /\ forall now', Eligible now' r' <-> now env + backoff <= now'.
Proof.
  intros Hlive Hrow Hst. rewrite (Return_run _ _ _ _ Hlive), Hrow.
  apply isProcessing_true in Hst. rewrite Hst. cbn [fst].
  eexists. rewrite lookup_insert_eq. split; [reflexivity |].
  intros now'. unfold Eligible. simpl. split; [tauto |].
  intros Hdue. split; [done | by left].
Qed.

End Leases.

Lemma Pull_hides_claimed_witness :
  gqs.jobId examples.claimedJob <> gqs.jobId examples.secondJob.
Proof.
  apply (@Pull_hides_claimed examples.builder (examples.at_ 110)
           (examples.at_ 150) 1 1 50 50 examples.pushedTwo
           [examples.claimedJob] [examples.secondJob]).
  - exact builder_limitSelects.
  - vm_compute. reflexivity.
  - vm_compute. discriminate.
  - vm_compute. reflexivity.
  - apply list_elem_of_here.
  - apply list_elem_of_here.
Defined.

Lemma Pull_room_witness :
  (@sql.Pull examples.builder (examples.at_ 110) 1 50 examples.pushed).1 !! 7
  = Some (sql.claim 110 160 (sql.fromMessage 100 (examples.msg 7) 0)).
Proof.
  apply (@Pull_room examples.builder (examples.at_ 110) 1 50 examples.pushed
           eq_refl eq_refl).
  - vm_compute. discriminate.
  - vm_compute. reflexivity.
  - split; [vm_compute; discriminate | by left].
Defined.

Lemma Return_schedules_witness :
  exists r',
    (sql.Return (examples.at_ 120) examples.claimedJob 30
       examples.claimed).1.1 !! 7 = Some r'
    /\ forall now', sql.Eligible now' r' <-> 120 + 30 <= now'.
Proof.
  apply (Return_schedules (examples.at_ 120) examples.claimedJob 30
           examples.claimed
           (sql.claim 110 160 (sql.fromMessage 100 (examples.msg 7) 0))
           eq_refl).
  - vm_compute. reflexivity.
  - reflexivity.
Defined.

(** ** Outcomes of handling a job *)

Section HandleOutcomes.

Import gqs.
Context `{F : Float64} {S : Type} `{P : !Puller S}.

Implicit Types (w : Worker) (sched : list event) (st : S) (jb : job.Job.t).

(** X20. When the handler returns nil, after any number of successful
    renewals, the worker asks the store for one transition, [Complete],
    and leaves store and job as [Complete] returns them, whether it
    succeeds or not. *)
Theorem handle_success_completes w sched env rnd st jb st1 jb1 :
  handlerEnds w sched st jb None st1 jb1 ->
  exists tr,
    handle w sched env rnd st jb
    = Some ((Complete env jb1 st1).1.1, (Complete env jb1 st1).1.2, tr)
    /\ transitions tr = [CallComplete (jobId jb1)].
Proof.
  intros Hends.
  destruct (handleOrExtend_handlerEnds _ _ _ _ _ _ _ Hends)
    as (tr & Hloop & _ & Htr).
  unfold handle. rewrite Hloop.
  destruct (Complete env jb1 st1) as [[st2 jb2] err].
  eexists. split; [reflexivity |].
  rewrite transitions_app, Htr. by destruct err.
Qed.

(** X21. When the handler returns an error that does not match
    [ErrLockLost] and the job has been claimed more than [MaxRetries]
    times, [MaxRetries] being positive, the worker asks the store for one
    transition, [Kill]. *)
Theorem handle_exhausted_kills w sched env rnd st jb e st1 jb1 :
  handlerEnds w sched st jb (Some e) st1 jb1 ->
  errorsIs e ErrLockLost = false ->
  0 < MaxRetries (backoff w) < job.Job.Attempts jb1 ->
  exists tr,
    handle w sched env rnd st jb
    = Some ((Kill env jb1 st1).1.1, (Kill env jb1 st1).1.2, tr)
    /\ transitions tr = [CallKill (jobId jb1)].
Proof.
  intros Hends Hnot Hmax.
  destruct (handleOrExtend_handlerEnds _ _ _ _ _ _ _ Hends)
    as (tr & Hloop & _ & Htr).
  destruct (handle_error w sched env rnd st jb e st1 jb1 tr Hloop Hnot Htr)
    as (out & call & tr' & Hrun & _ & Hcalls & _ & Hkill).
  destruct Hkill as [-> ->]; [by apply next_exhausted |]. by exists tr'.
Qed.

(** X22. The check for a lost lock looks at the handler's own result too:
    when the handler returns [ErrLockLost], or an error that wraps it, the
    worker abandons the job and asks the store for no transition, though
    no renewal has failed. *)
Theorem handle_handler_LockLost w sched env rnd st jb e st1 jb1 :
  handlerEnds w sched st jb (Some e) st1 jb1 ->
  errorsIs e ErrLockLost = true ->
  exists tr,
    handle w sched env rnd st jb = Some (st1, jb1, tr)
    /\ transitions tr = [].
Proof.
  intros Hends Hlost.
  destruct (handleOrExtend_handlerEnds _ _ _ _ _ _ _ Hends)
    as (tr & Hloop & _ & Htr).
  unfold handle. rewrite Hloop, Hlost.
  eexists. split; [reflexivity |]. by rewrite transitions_app, Htr.
Qed.

Lemma handleOrExtend_None w sched st jb :
  handleOrExtend w sched st jb = None <-> allRenew w sched st jb.
Proof.
  revert st jb. induction sched as [| ev rest IH]; intros st jb.
  - split; [intros _; constructor | done].
  - destruct ev as [env | res]; simpl.
    + destruct (ExtendLock env jb (lock w) st) as [[st1 jb1] err] eqn:Hext.
      destruct err as [e |].
      * split; [done |]. inversion 1; congruence.
      * specialize (IH st1 jb1).
        destruct (handleOrExtend w rest st1 jb1) as [[[[? ?] ?] ?] |].
        -- split; [done |].
           inversion 1 as [| ? ? ? ? st2 jb2 Hext2 Hrest]; subst.
           rewrite Hext in Hext2. injection Hext2 as <- <-.
           by apply IH in Hrest.
        -- split; [| done]. intros _. econstructor; [exact Hext |].
           by apply IH.
    + split; [done | inversion 1].
Qed.

(** X23. [handle] returns as soon as the handler's result arrives or a
    renewal fails: it is still waiting exactly when all events so far are
    timer ticks whose renewals have succeeded. *)
Theorem handle_waits_iff w sched env rnd st jb :
  handle w sched env rnd st jb = None <-> allRenew w sched st jb.
Proof.
  rewrite <- handleOrExtend_None. unfold handle.
  destruct (handleOrExtend w sched st jb) as [[[[st1 jb1] tr] res] |];
    [| done].
  split; [| done].
  destruct res as [e |].
  - destruct (errorsIs e ErrLockLost); [done |].
    destruct (next (backoff w) (job.Job.Attempts jb1) rnd) as [delay ok].
    destruct (negb ok).
    + by destruct (Kill env jb1 st1) as [[? ?] ?].
    + by destruct (Return env jb1 delay st1) as [[? ?] ?].
  - by destruct (Complete env jb1 st1) as [[? ?] ?].
Qed.

End HandleOutcomes.

Lemma handle_success_completes_witness :
  exists tr,
    examples.handleWith examples.testWorker examples.claimedJob
      [gqs.Finished None]
    = Some ((sql.Complete (examples.at_ 120) examples.claimedJob
               examples.claimed).1,
            tr)
    /\ gqs.transitions tr = [gqs.CallComplete 7].
Proof.
  destruct (@handle_success_completes examples.exactFloat sql.table
              (@sql.puller examples.builder) examples.testWorker
              [gqs.Finished None] (examples.at_ 120) (inject_Z 0)
              examples.claimed examples.claimedJob _ _
              (gqs.handlerEnds_now _ _ _ _ _)) as (tr & Hrun & Htr).
  exists tr. split; [| exact Htr].
  unfold examples.handleWith. rewrite Hrun. vm_compute. reflexivity.
Defined.

Lemma handle_exhausted_kills_witness :
  exists tr,
    examples.handleWith examples.retryWorker examples.tiredJob
      [gqs.Finished (Some (gqs.New "boom"))]
    = Some ((sql.Kill (examples.at_ 120) examples.tiredJob
               examples.claimed).1,
            tr)
    /\ gqs.transitions tr = [gqs.CallKill 7].
Proof.
  destruct (@handle_exhausted_kills examples.exactFloat sql.table
              (@sql.puller examples.builder) examples.retryWorker
              [gqs.Finished (Some (gqs.New "boom"))] (examples.at_ 120)
              (inject_Z 0) examples.claimed examples.tiredJob _ _ _
              (gqs.handlerEnds_now _ _ _ _ _) eq_refl)
    as (tr & Hrun & Htr).
  { vm_compute. split; reflexivity. }
  exists tr. split; [| exact Htr].
  unfold examples.handleWith. rewrite Hrun. vm_compute. reflexivity.
Defined.

Lemma handle_handler_LockLost_witness :
  exists tr,
    examples.handleWith examples.testWorker examples.claimedJob
      [gqs.Finished (Some (gqs.Wrap "handler" gqs.ErrLockLost))]
    = Some (examples.claimed, examples.claimedJob, tr)
    /\ gqs.transitions tr = [].
Proof.
  apply (@handle_handler_LockLost examples.exactFloat sql.table
           (@sql.puller examples.builder) examples.testWorker
           [gqs.Finished (Some (gqs.Wrap "handler" gqs.ErrLockLost))]
           (examples.at_ 120) (inject_Z 0) examples.claimed
           examples.claimedJob _ _ _ (gqs.handlerEnds_now _ _ _ _ _)).
  reflexivity.
Defined.

(** ** The worker on the relational store *)

Section WorkerOnSql.

Import gqs sql.
Context `{F : Float64} `{QB : QueryBuilder}.

Implicit Types (w : Worker) (t : table) (r : jobModel) (jb : job.Job.t)
  (env : Env) (id : message.uuid).

(** Renewals that reach the store keep the job's row in [Processing] and
    write its lock and update time only; the handler's result then
    arrives. *)
Lemma sql_renewals w ticks res t jb r :
  Forall (fun ev => exists e, ev = Tick e /\ fail e = None) ticks ->
  t !! jobId jb = Some r ->
  Status r = job.Processing ->
  exists t1 jb1 r1,
    handlerEnds w (ticks ++ [Finished res]) t jb res t1 jb1
    /\ jobId jb1 = jobId jb
    /\ t1 !! jobId jb = Some r1
    /\ Status r1 = job.Processing
    /\ Attempts r1 = Attempts r
    /\ NextRunAt r1 = NextRunAt r
    /\ sameMessage r r1
    /\ forall id, id <> jobId jb -> t1 !! id = t !! id.
Proof.
  intros Hticks. revert t jb r.
  induction Hticks as [| ev ticks (e & -> & Hlive) _ IH];
    intros t jb r Hrow Hst.
  - exists t, jb, r. simpl. split; [constructor | done].
  - pose proof (ExtendLock_run e jb (lock w) t Hlive) as Hrun.
    rewrite Hrow in Hrun.
    apply isProcessing_true in Hst as Hp. rewrite Hp in Hrun.
    match type of Hrun with
    | _ = (?t1, ?jb1, None) =>
        destruct (IH t1 jb1 (extended (now e) (lock w) r))
          as (t2 & jb2 & r2 & Hends & Hid & Hrow2 & Hst2 & Hatt & Hnext
              & Hmsg & Hframe)
    end.
    { by rewrite lookup_insert_eq. }
    { exact Hst. }
    exists t2, jb2, r2. split.
    { eapply handlerEnds_later; [exact Hrun | exact Hends]. }
    split; [exact Hid |]. split; [exact Hrow2 |].
    split; [exact Hst2 |]. split; [exact Hatt |]. split; [exact Hnext |].
    split; [exact Hmsg |].
    intros id Hne. rewrite (Hframe id Hne).
    by rewrite lookup_insert_ne.
Qed.

(** X24. On the relational store, a job whose row is [Processing] and
    whose handler returns nil ends [Done], however many renewals reached
    the store in between and as long as no other caller touched the row:
    the row has its lock cleared and the time of completion as update
    time, keeps its attempts, run time and message, every other row is
    as it was, and [Complete] is the only transition asked for. *)
Theorem handle_Processing_Done w ticks env rnd t jb r :
  Forall (fun ev => exists e, ev = Tick e /\ fail e = None) ticks ->
  fail env = None ->
  t !! jobId jb = Some r ->
  Status r = job.Processing ->
  exists t' jb' tr r',
    handle w (ticks ++ [Finished None]) env rnd t jb = Some (t', jb', tr)
    /\ t' !! jobId jb = Some r'
    /\ Status r' = job.Done
    /\ LockedUntil r' = None
    /\ UpdatedAt r' = now env
    /\ Attempts r' = Attempts r
    /\ NextRunAt r' = NextRunAt r
    /\ sameMessage r r'
    /\ (forall id, id <> jobId jb -> t' !! id = t !! id)
    /\ job.Job.Status jb' = job.Done
    /\ transitions tr = [CallComplete (jobId jb)].
Proof.
  intros Hticks Hlive Hrow Hst.
  destruct (sql_renewals w ticks None t jb r Hticks Hrow Hst)
    as (t1 & jb1 & r1 & Hends & Hid & Hrow1 & Hst1 & Hatt & Hnext & Hmsg
        & Hframe).
  destruct (handleOrExtend_handlerEnds _ _ _ _ _ _ _ Hends)
    as (tr & Hloop & _ & Htr).
  unfold handle. rewrite Hloop.
  change (gqs.Complete env jb1 t1) with (Complete env jb1 t1).
  rewrite (Complete_run _ _ _ Hlive), Hid, Hrow1.
  apply isProcessing_true in Hst1 as Hp. rewrite Hp.
  do 4 eexists. split; [reflexivity |].
  rewrite lookup_insert_eq. split; [reflexivity |].
  split; [done |]. split; [done |]. split; [done |].
  split; [exact Hatt |]. split; [exact Hnext |]. split; [exact Hmsg |].
  split.
  { intros id Hne. rewrite lookup_insert_ne by done. by apply Hframe. }
  split; [done |]. by rewrite transitions_app, Htr.
Qed.

(** X25. A polling tick on the relational store hands the pool a prefix
    of the jobs that [Pull] returns, in their order, and every job
    pulled, handed over or dropped because the pool is shutting down, is
    [Processing] in the store under a lock until [now + lock]: a dropped
    job is not released. *)
Theorem pull_keeps_lease w env accepts t jobs tr :
  (Pull env (batchSize w) (lock w) t).2 = inl jobs ->
  (pull w env accepts t).2 = Some tr ->
  dispatched tr `prefix_of` jobs
  /\ forall jb, jb ∈ jobs ->
       exists r',
         (pull w env accepts t).1 !! jobId jb = Some r'
         /\ Status r' = job.Processing
         /\ LockedUntil r' = Some (now env + lock w).
Proof.
  intros Hjobs Htr.
  assert (Hst : (pull w env accepts t).1
                = (Pull env (batchSize w) (lock w) t).1).
  { unfold pull.
    change (gqs.Pull env (batchSize w) (lock w) t)
      with (Pull env (batchSize w) (lock w) t).
    by destruct (Pull env (batchSize w) (lock w) t) as [? [? | ?]]. }
  assert (Hdisp : dispatch jobs accepts = Some tr).
  { revert Htr. unfold pull.
    change (gqs.Pull env (batchSize w) (lock w) t)
      with (Pull env (batchSize w) (lock w) t).
    destruct (Pull env (batchSize w) (lock w) t) as [? [? | ?]];
      simpl in *; congruence. }
  split.
  - clear Hjobs Htr Hst. revert accepts tr Hdisp.
    induction jobs as [| jb jobs IH]; intros accepts tr Hdisp.
    + injection Hdisp as <-. apply prefix_nil.
    + simpl in Hdisp. destruct accepts as [| [|] accepts]; [done | |].
      * destruct (dispatch jobs accepts) as [tr' |] eqn:Hrest; [| done].
        injection Hdisp as <-. simpl. apply prefix_cons. by eapply IH.
      * injection Hdisp as <-. apply prefix_nil.
  - intros jb Hjb. rewrite Hst.
    destruct (Pull_returns _ _ _ _ _ _ Hjobs Hjb) as (r & _ & Hrow & _).
    eexists. split; [exact Hrow |]. done.
Qed.

End WorkerOnSql.

Lemma handle_Processing_Done_witness :
  exists t' jb' tr r',
    examples.handleWith examples.testWorker examples.claimedJob
      ([gqs.Tick (examples.at_ 115)] ++ [gqs.Finished None])
    = Some (t', jb', tr)
    /\ t' !! 7 = Some r'
    /\ sql.Status r' = job.Done.
Proof.
  destruct (@handle_Processing_Done examples.exactFloat examples.builder
              examples.testWorker [gqs.Tick (examples.at_ 115)]
              (examples.at_ 120) (inject_Z 0) examples.claimed
              examples.claimedJob
              (sql.claim 110 160 (sql.fromMessage 100 (examples.msg 7) 0)))
    as (t' & jb' & tr & r' & Hrun & Hrow & Hst & _).
  - constructor; [| constructor]. by eexists.
  - reflexivity.
  - vm_compute. reflexivity.
  - reflexivity.
  - by exists t', jb', tr, r'.
Defined.

Lemma pull_keeps_lease_witness :
  gqs.dispatched [gqs.Dispatched examples.polledJob]
  `prefix_of` [examples.polledJob].
Proof.
  apply (@pull_keeps_lease examples.exactFloat examples.builder
           examples.testWorker (examples.at_ 110) [true] examples.pushed).
  - vm_compute. reflexivity.
  - vm_compute. reflexivity.
Defined.

(** ** Stopping a worker, and the first attempt of the backoff *)

Section StopAndBackoff.

Import gqs.
Context `{F : Float64}.

(** X26. [Stop] on a started worker tells both background tasks to stop
    and puts the worker in the stopped state whether or not they finish
    within the timeout: it returns nil or [ErrStopTimeout] accordingly,
    and after either outcome a further [Stop] returns [ErrDoubleStopped]
    and a [Start] succeeds. *)
Theorem Stop_started (inTime : bool) (w : Worker) :
  state (lc w) = started ->
  (Stop inTime w).2 = (if inTime then None else Some ErrStopTimeout)
  /\ state (lc (Stop inTime w).1) = stopped
  /\ running (pullTask (Stop inTime w).1) = false
  /\ running (pool (Stop inTime w).1) = false
  /\ (forall inTime',
        (Stop inTime' (Stop inTime w).1).2 = Some ErrDoubleStopped)
  /\ (Start (Stop inTime w).1).2 = None.
Proof.
  intros Hst.
  assert (Hrun : Stop inTime w
                 = (withLifecycle w {| state := stopped |}
                      (taskStop (pullTask w)) (taskStop (pool w)),
                    if inTime then None else Some ErrStopTimeout)).
  { unfold Stop, tryStop, CompareAndSwap. rewrite Hst. simpl.
    by destruct inTime. }
  rewrite Hrun. cbn [fst snd].
  split; [done |]. split; [done |]. split; [done |]. split; [done |].
  split; [| done]. intros inTime'. by rewrite Stop_stopped.
Qed.

(** X27. For the attempt count 0 the retries are never exhausted, and the
    [uint32] subtraction [attempt - 1] wraps: the multiplier is raised to
    the power 4294967295, not -1. *)
Theorem next_attempt_zero (bc : BackoffConfig) (rnd : float64) :
  0 <= MaxRetries bc ->
  (next bc 0 rnd).2 = true
  /\ (fgt (RandomizationFactor bc) (of_int 0) = false ->
      (next bc 0 rnd).1
      = to_int64
          (if fgt (fmul (of_int (InitialInterval bc))
                        (Pow (Multiplier bc) (of_int 4294967295)))
                  (of_int (MaxInterval bc))
           then of_int (MaxInterval bc)
           else fmul (of_int (InitialInterval bc))
                     (Pow (Multiplier bc) (of_int 4294967295)))).
Proof.
  intros Hmax. unfold next.
  destruct (Z.ltb_spec (MaxRetries bc) 0) as [? | _]; [lia |].
  rewrite andb_false_r. split; [done |].
  intros Hr. cbn [fst]. rewrite Hr. reflexivity.
Qed.

End StopAndBackoff.

Lemma Stop_started_witness :
  (gqs.Stop false (gqs.Start examples.testWorker).1).2
  = Some gqs.ErrStopTimeout.
Proof.
  pose proof (@Stop_started examples.exactFloat false
                (gqs.Start examples.testWorker).1 eq_refl) as (Hres & _).
  exact Hres.
Defined.

Lemma next_attempt_zero_witness :
  (@gqs.next examples.exactFloat examples.retryBackoff 0 (inject_Z 0)).2
  = true.
Proof.
  apply (@next_attempt_zero examples.exactFloat examples.retryBackoff
           (inject_Z 0)).
  vm_compute. discriminate.
Defined.

(** ** The clean worker on the relational store *)

Section CleanTick.

Import gqs sql.
Import CleanWorker.

Implicit Types (cw : CleanWorker.t) (t : table) (r : jobModel) (env : Env)
  (id : message.uuid).

Lemma clean_store cw env t :
  (clean cw env t).1
  = (Clean env (status cw) (beforeStamp (now env) cw) t).1.1.
Proof.
  unfold clean. change (@gqs.Clean table cleaner) with Clean.
  by destruct (Clean env (status cw) (beforeStamp (now env) cw) t)
    as [[? ?] ?].
Qed.

Lemma Clean_keeps_recent env status b t id r :
  t !! id = Some r ->
  b < UpdatedAt r ->
  (Clean env status (Some b) t).1.1 !! id = Some r.
Proof.
  intros Hrow Hrecent. unfold Clean.
  destruct (negb (status =? 0) && negb (status =? job.Dead)
            && negb (status =? job.Done)); [done |].
  unfold Exec. destruct (fail env); [done |]. cbn [fst snd deleteRows].
  apply map_lookup_filter_Some. split; [done |]. simpl.
  apply andb_false_iff. right. apply Z.leb_gt. exact Hrecent.
Qed.

(** X28. A tick of the clean worker on the relational store changes no
    row that it leaves in the store and deletes no row that is not [Done]
    or [Dead], whatever status it is configured with. With [Before] set
    it also keeps every row updated after [now - Delta]. Configured with
    a status other than [Unknown], [Done], [Dead] it deletes nothing and
    logs the error, and then a count of 0. *)
Theorem clean_tick cw env t :
  (forall id r, (clean cw env t).1 !! id = Some r -> t !! id = Some r)
  /\ (forall id r,
        t !! id = Some r -> ~ terminal r ->
        (clean cw env t).1 !! id = Some r)
  /\ (before cw = true ->
      forall id r,
        t !! id = Some r -> now env - delta cw < UpdatedAt r ->
        (clean cw env t).1 !! id = Some r)
  /\ (status cw ∉ [job.Unknown; job.Done; job.Dead] ->
      clean cw env t
      = (t, [LogError "error while cleaning" ErrBadStatus;
             LogInfo "cleaned jobs" 0])).
Proof.
  split; [| split; [| split]].
  - intros id r. rewrite clean_store. apply Clean_lookup_Some.
  - intros id r Hrow Hnt. rewrite clean_store.
    destruct (Clean_lookup env (status cw) (beforeStamp (now env) cw)
                t id r Hrow) as [Hkept | [_ Hterm]]; done.
  - intros Hb id r Hrow Hrecent. rewrite clean_store.
    unfold beforeStamp. rewrite Hb. cbn [negb].
    apply Clean_keeps_recent; [done |].
    destruct (Z.eqb_spec (delta cw) 0) as [Hz | Hnz]; cbn [negb]; lia.
  - intros Hbad. unfold clean. change (@gqs.Clean table cleaner) with Clean.
    unfold Clean.
    rewrite !not_elem_of_cons in Hbad. destruct Hbad as (H0 & Hd & Hdd & _).
    apply Z.eqb_neq in H0, Hd, Hdd. unfold job.Unknown in H0.
    by rewrite H0, Hd, Hdd.
Qed.

End CleanTick.

Lemma clean_tick_witness :
  (@gqs.CleanWorker.clean sql.table sql.cleaner
     (gqs.CleanWorker.NewCleanWorker
        {| gqs.CleanWorker.Status := job.Done;
           gqs.CleanWorker.Interval := 50000000;
           gqs.CleanWorker.Before := true;
           gqs.CleanWorker.Delta := 10 |})
     (examples.at_ 120) examples.finished).1 !! 7
  = Some (sql.completed 116
            (sql.claim 110 160 (sql.fromMessage 100 (examples.msg 7) 0))).
Proof.
  pose proof (clean_tick
                (gqs.CleanWorker.NewCleanWorker
                   {| gqs.CleanWorker.Status := job.Done;
                      gqs.CleanWorker.Interval := 50000000;
                      gqs.CleanWorker.Before := true;
                      gqs.CleanWorker.Delta := 10 |})
                (examples.at_ 120) examples.finished) as (_ & _ & Hrecent & _).
  apply Hrecent.
  - reflexivity.
  - vm_compute. reflexivity.
  - vm_compute. reflexivity.
Defined.

(** ** The timer task *)

Section TimerTask.

Import gqs internal.
Context {S : Type}.

Lemma loop_ticks (h : Env -> S -> S) (envs : list Env)
    (rest : list timerEvent) (st : S) :
  loop h ((TickerFired <$> envs) ++ rest) st
  = loop h rest (foldl (fun st env => h env st) st envs).
Proof.
  revert st. induction envs as [| env envs IH]; intros st; [done |].
  simpl. apply IH.
Qed.

(** X29. A timer task with a positive period runs its handler once at
    once, before the first tick, and once more for every tick until the
    context is cancelled, then returns; it runs it once even when the
    context is cancelled before any tick. With a period of zero or less
    the ticker panics and the handler never runs. *)
Theorem do_runs (env : Env) (envs : list Env) (rest : list timerEvent)
    (h : Env -> S -> S) (timeout : Z) (st : S) :
  (0 < timeout ->
   do env ((TickerFired <$> envs) ++ CtxDone :: rest) h timeout st
   = Returned (foldl (fun st env => h env st) (h env st) envs))
  /\ (0 < timeout ->
      do env (CtxDone :: rest) h timeout st = Returned (h env st))
  /\ (timeout <= 0 ->
      do env ((TickerFired <$> envs) ++ rest) h timeout st = Panicked).
Proof.
  unfold do. repeat split; intros Ht.
  - destruct (Z.leb_spec timeout 0); [lia |]. by rewrite loop_ticks.
  - destruct (Z.leb_spec timeout 0); [lia | done].
  - destruct (Z.leb_spec timeout 0); [done | lia].
Qed.

End TimerTask.

Lemma do_runs_witness :
  internal.do (examples.at_ 100)
    ((internal.TickerFired <$> [examples.at_ 120])
       ++ internal.CtxDone :: [])
    (fun env n => n + gqs.now env) 20 0
  = internal.Returned 220.
Proof.
  pose proof (@do_runs Z (examples.at_ 100) [examples.at_ 120] []
                (fun env n => n + gqs.now env) 20 0) as (Hrun & _).
  rewrite Hrun by lia. reflexivity.
Defined.

(** ** Attempts and statuses *)

Section AttemptsAndStatus.

Import gqs sql.
Context `{QB : QueryBuilder}.

Implicit Types (t : table) (r : jobModel).

Lemma step_invariant (P : jobModel -> Prop) t t' :
  (forall now msg delay, P (fromMessage now msg delay)) ->
  (forall now lockUntil r, P r -> P (claim now lockUntil r)) ->
  (forall now lock r,
     P r -> isProcessing r = true -> P (extended now lock r)) ->
  (forall now r, P r -> isProcessing r = true -> P (completed now r)) ->
  (forall now backoff r,
     P r -> isProcessing r = true -> P (returned now backoff r)) ->
  (forall now r, P r -> isLive r = true -> P (killed now r)) ->
  step t t' -> allRows P t -> allRows P t'.
Proof.
  intros Hpush Hclaim Hext Hdone Hret Hkill Hstep Ht id r' Hrow'.
  assert (Hwrite : forall k written,
            P written -> <[k := written]> t !! id = Some r' -> P r').
  { intros k written Hw. destruct (decide (id = k)) as [-> | Hne].
    - rewrite lookup_insert_eq. by intros [= <-].
    - rewrite lookup_insert_ne by done. apply Ht. }
  destruct Hstep as [env msg delay t | env batch lock t | env jb lock t
                    | env jb t | env jb backoff t | env jb t
                    | env status before t].
  - destruct (Push_lookup env msg delay t id) as [Heq | [_ Heq]];
      rewrite Heq in Hrow'; [by eapply Ht |].
    injection Hrow' as <-. apply Hpush.
  - destruct (Pull_lookup env batch lock t id) as [Heq | [_ Heq]];
      rewrite Heq in Hrow'; [by eapply Ht |].
    destruct (t !! id) as [r |] eqn:Hrow; [| done].
    injection Hrow' as <-. apply Hclaim. by eapply Ht.
  - destruct (transition_cases env jb lock 0 t)
      as ([Heq | (r0 & Hr0 & Hg & Heq)] & _); rewrite Heq in Hrow';
      [by eapply Ht |].
    refine (Hwrite _ _ _ Hrow'). apply Hext; [by eapply Ht | done].
  - destruct (transition_cases env jb 0 0 t)
      as (_ & [Heq | (r0 & Hr0 & Hg & Heq)] & _); rewrite Heq in Hrow';
      [by eapply Ht |].
    refine (Hwrite _ _ _ Hrow'). apply Hdone; [by eapply Ht | done].
  - destruct (transition_cases env jb 0 backoff t)
      as (_ & _ & [Heq | (r0 & Hr0 & Hg & Heq)] & _); rewrite Heq in Hrow';
      [by eapply Ht |].
    refine (Hwrite _ _ _ Hrow'). apply Hret; [by eapply Ht | done].
  - destruct (transition_cases env jb 0 0 t)
      as (_ & _ & _ & [Heq | (r0 & Hr0 & Hg & Heq)]); rewrite Heq in Hrow';
      [by eapply Ht |].
    refine (Hwrite _ _ _ Hrow'). apply Hkill; [by eapply Ht | done].
  - apply Clean_lookup_Some in Hrow'. by eapply Ht.
Qed.

(** X30. In every table that the operations of the package build from
    the empty one, attempt counts are not negative, and a row that is
    [Processing] or [Done] has been claimed at least once: its attempt
    count is 1 or more. *)
Theorem claimed_at_least_once t :
  reachable t ->
  forall id r, t !! id = Some r ->
    0 <= Attempts r
    /\ (Status r = job.Processing \/ Status r = job.Done ->
        1 <= Attempts r).
Proof.
  induction 1 as [| t t' _ IH Hstep].
  - intros id r. by rewrite lookup_empty.
  - revert IH. apply (step_invariant _ t t'); try done.
    + intros now msg delay. simpl. split; [done |]. by intros [? | ?].
    + intros now lockUntil r [Hnn _]. simpl. split; lia.
    + intros now r [Hnn Hone] Hp%isProcessing_true. simpl.
      split; [done |]. intros _. apply Hone. by left.
    + intros now backoff r [Hnn _] _. simpl. split; [done |].
      by intros [? | ?].
    + intros now r [Hnn _] _. simpl. split; [done |]. by intros [? | ?].
Qed.

End AttemptsAndStatus.

Lemma claimed_at_least_once_witness :
  0 <= sql.Attempts
         (sql.claim 110 160 (sql.fromMessage 100 (examples.msg 7) 0))
  /\ (sql.Status
        (sql.claim 110 160 (sql.fromMessage 100 (examples.msg 7) 0))
      = job.Processing
      \/ sql.Status
           (sql.claim 110 160 (sql.fromMessage 100 (examples.msg 7) 0))
         = job.Done ->
      1 <= sql.Attempts
             (sql.claim 110 160 (sql.fromMessage 100 (examples.msg 7) 0))).
Proof.
  apply (@claimed_at_least_once examples.builder examples.claimed) with 7.
  - unfold examples.claimed, examples.pushed.
    eapply sql.reachable_step; [| apply sql.step_Pull].
    eapply sql.reachable_step; [apply sql.reachable_empty |].
    apply sql.step_Push.
  - vm_compute. reflexivity.
Defined.
